(** * RHOCore: JSON-like data as rholang terms

    A shallow embedding of the [RHOCore] functions of [rnodeAPI]
    ([fromJSData], [toJSData], [toRholang], [toByteArray]) and the
    properties of the encoding they implement. *)

From Stdlib Require Import String Ascii List ZArith Bool Lia.
From Stdlib Require Import DecimalString Permutation Sorted Orders Mergesort.
From Stdlib Require Import DecimalPos DecimalZ.
Import ListNotations.
Local Open Scope list_scope.
Local Open Scope string_scope.
Local Set Warnings "-register-all".

(** ** Exceptions

    The functions signal failure with [throw new Error(msg)]; reading a
    property of [undefined] raises the engine's [TypeError]. *)

Inductive exn : Type :=
| Error (message : string)
| TypeError.

Inductive result (A : Type) : Type :=
| Ok (a : A)
| Throw (e : exn).
Arguments Ok {A} a.
Arguments Throw {A} e.

Definition bind {A B : Type} (r : result A) (k : A -> result B) : result B :=
  match r with
  | Ok a => k a
  | Throw e => Throw e
  end.

Notation "x <- r ;; k" := (bind r (fun x => k))
  (at level 61, r at next level, right associativity).

(** [items.map(f)] with a callback that may throw: the elements are
    visited left to right and the first exception ends the traversal. *)
Definition mapM {A B : Type} (f : A -> result B) : list A -> result (list B) :=
  fix go (l : list A) : result (list B) :=
    match l with
    | [] => Ok []
    | x :: xs => y <- f x ;; ys <- go xs ;; Ok (y :: ys)
    end.

(** [items.reduce(f, init)] with a callback that may throw. *)
Definition reduceM {A B : Type} (f : B -> A -> result B)
  : list A -> B -> result B :=
  fix go (l : list A) (acc : B) : result B :=
    match l with
    | [] => Ok acc
    | x :: xs => acc' <- f acc x ;; go xs acc'
    end.

Definition is_ok {A : Type} (r : result A) : bool :=
  match r with Ok _ => true | Throw _ => false end.

(** ** JavaScript data *)

(** A number value.  The functions only pass numbers along and print
    them, so a number is kept as either an integer or, for any other
    double (a fractional value, [NaN], an infinity), the text
    [Number::toString] gives it.  [Integral z] is the number that the
    integer literal [z] denotes: [z] itself up to [2^53], the nearest
    double beyond. *)
Inductive number : Type :=
| Integral (z : Z)
| NonIntegral (text : string).

(** Strings are sequences of code units; a character of a [string]
    stands for one code unit below 256.  An array is dense, without
    holes.  An object is the list of its own enumerable string-keyed
    properties, in creation order; a function is kept by its source
    text and a symbol by its description. *)
Inductive JSValue : Type :=
| JSUndefined
| JSNull
| JSBool (b : bool)
| JSNumber (n : number)
| JSString (s : string)
| JSFunction (source : string)
| JSArray (items : list JSValue)
| JSObject (props : list (string * JSValue))
| JSSymbol (description : string)
| JSBigInt (z : Z).

Definition typeof (x : JSValue) : string :=
  match x with
  | JSUndefined => "undefined"
  | JSNull => "object"
  | JSBool _ => "boolean"
  | JSNumber _ => "number"
  | JSString _ => "string"
  | JSFunction _ => "function"
  | JSArray _ => "object"
  | JSObject _ => "object"
  | JSSymbol _ => "symbol"
  | JSBigInt _ => "bigint"
  end.

Section JSValue_induction.
Variable P : JSValue -> Prop.
Hypothesis Pundefined : P JSUndefined.
Hypothesis Pnull : P JSNull.
Hypothesis Pbool : forall b, P (JSBool b).
Hypothesis Pnumber : forall n, P (JSNumber n).
Hypothesis Pstring : forall s, P (JSString s).
Hypothesis Pfunction : forall f, P (JSFunction f).
Hypothesis Parray : forall items, Forall P items -> P (JSArray items).
Hypothesis Pobject :
  forall props, Forall (fun kv => P (snd kv)) props -> P (JSObject props).
Hypothesis Psymbol : forall d, P (JSSymbol d).
Hypothesis Pbigint : forall z, P (JSBigInt z).

Fixpoint JSValue_nested_ind (x : JSValue) : P x :=
  match x with
  | JSUndefined => Pundefined
  | JSNull => Pnull
  | JSBool b => Pbool b
  | JSNumber n => Pnumber n
  | JSString s => Pstring s
  | JSFunction f => Pfunction f
  | JSArray items =>
      Parray items
        ((fix all (l : list JSValue) : Forall P l :=
            match l with
            | [] => Forall_nil P
            | v :: vs => Forall_cons v (JSValue_nested_ind v) (all vs)
            end) items)
  | JSObject props =>
      Pobject props
        ((fix all (l : list (string * JSValue))
            : Forall (fun kv => P (snd kv)) l :=
            match l with
            | [] => Forall_nil _
            | kv :: kvs =>
                Forall_cons kv (JSValue_nested_ind (snd kv)) (all kvs)
            end) props)
  | JSSymbol d => Psymbol d
  | JSBigInt z => Pbigint z
  end.
End JSValue_induction.

(** *** Property access *)

(** [Object.keys(obj)]. *)
Definition Object_keys {V : Type} (obj : list (string * V)) : list string :=
  map fst obj.

(** The own property [k] of an object, if it has one. *)
Fixpoint GetOwnProperty {V : Type} (obj : list (string * V)) (k : string)
  : option V :=
  match obj with
  | [] => None
  | (k', v) :: rest => if String.eqb k' k then Some v else GetOwnProperty rest k
  end.

(** [obj[k]]: an absent property reads as [undefined]. *)
Definition Get (obj : list (string * JSValue)) (k : string) : JSValue :=
  match GetOwnProperty obj k with
  | Some v => v
  | None => JSUndefined
  end.

(** [CreateDataProperty]: an existing key keeps its place and takes the
    new value, a new key is added last. *)
Fixpoint CreateDataProperty {V : Type} (obj : list (string * V))
  (k : string) (v : V) : list (string * V) :=
  match obj with
  | [] => [(k, v)]
  | (k', v') :: rest =>
      if String.eqb k' k then (k', v) :: rest
      else (k', v') :: CreateDataProperty rest k v
  end.

(** [{ ...target, ...source }]: the properties of [source] are copied
    onto [target] one by one. *)
Definition spread {V : Type} (target source : list (string * V))
  : list (string * V) :=
  fold_left (fun o kv => CreateDataProperty o (fst kv) (snd kv)) source target.

(** *** [Array.prototype.sort] on strings

    Without a comparison function the elements are ordered by their
    code units. *)
Module StringOrder <: TotalLeBool.
Definition t := string.
Definition leb (x y : string) : bool := String.leb x y.
Definition leb_total : forall x y, leb x y = true \/ leb y x = true :=
  String.leb_total.
End StringOrder.

Module StringSort := Sort StringOrder.

Definition sort (keys : list string) : list string := StringSort.sort keys.

(** *** [Array.prototype.join] *)
Fixpoint join (sep : string) (parts : list string) : string :=
  match parts with
  | [] => ""
  | [s] => s
  | s :: rest => s ++ sep ++ join sep rest
  end.

(** *** Numbers and strings as text *)

Definition decimal (z : Z) : string := NilZero.string_of_int (Z.to_int z).

(** The double nearest to a natural number: 53 bits are kept, a tie
    goes to the even mantissa. *)
Definition round_to_double (y : Z) : Z :=
  let bits := (Z.log2 y + 1)%Z in
  if (bits <=? 53)%Z then y
  else
    let sh := (bits - 53)%Z in
    let q := Z.shiftr y sh in
    let r := (y - Z.shiftl q sh)%Z in
    let half := Z.shiftl 1 (sh - 1) in
    let q' := if ((half <? r) || ((r =? half) && Z.odd q))%Z%bool
              then (q + 1)%Z else q in
    Z.shiftl q' sh.

Definition digit_count (y : Z) : Z := Z.of_nat (String.length (decimal y)).

(** The number with [k] significant digits that reads back as the
    double [x], if there is one: the nearer of the two around [x], the
    one with the even last digit when they are as near. *)
Definition with_digits (x k : Z) : option Z :=
  let d := digit_count x in
  if (d <=? k)%Z then Some x
  else
    let scale := (10 ^ (d - k))%Z in
    let s := (x / scale)%Z in
    let lo := (s * scale)%Z in
    let hi := (lo + scale)%Z in
    match (round_to_double lo =? x)%Z, (round_to_double hi =? x)%Z with
    | true, true =>
        if (x - lo <? hi - x)%Z then Some lo
        else if (hi - x <? x - lo)%Z then Some hi
        else if Z.even s then Some lo else Some hi
    | true, false => Some lo
    | false, true => Some hi
    | false, false => None
    end.

(** The number with the fewest significant digits that reads back as
    [x]; seventeen digits are always enough. *)
Fixpoint shortest (fuel : nat) (x k : Z) : Z :=
  match fuel with
  | O => x
  | S fuel' =>
      match with_digits x k with
      | Some y => y
      | None => shortest fuel' x (k + 1)%Z
      end
  end.

Fixpoint strip_zeros (digits : string) : string :=
  match digits with
  | EmptyString => EmptyString
  | String c rest =>
      match strip_zeros rest with
      | EmptyString =>
          if Ascii.eqb c "0" then EmptyString else String c EmptyString
      | kept => String c kept
      end
  end.

(** Up to 21 digits are written out; a longer number is written with
    an exponent. *)
Definition positional_or_exponent (y : Z) : string :=
  let digits := decimal y in
  let n := Z.of_nat (String.length digits) in
  if (n <=? 21)%Z then digits
  else
    match strip_zeros digits with
    | EmptyString => digits
    | String c EmptyString => String c "" ++ "e+" ++ decimal (n - 1)
    | String c more => String c "" ++ "." ++ more ++ "e+" ++ decimal (n - 1)
    end.

(** [Number::toString].  An integer up to [2^53] is a double and prints
    as its digits; a larger one prints as the shortest digits that read
    back as its double, and as [Infinity] past the largest double. *)
Definition Number_toString (n : number) : string :=
  match n with
  | Integral z =>
      if (Z.abs z <=? 2 ^ 53)%Z then decimal z
      else
        let x := round_to_double (Z.abs z) in
        let sign := if (z <? 0)%Z then "-" else "" in
        if (2 ^ 1024 <=? x)%Z then sign ++ "Infinity"
        else sign ++ positional_or_exponent (shortest 17 x 1)
  | NonIntegral text => text
  end.

(** [ToString] of a value, as used for a computed property key.  An
    array joins its elements with a comma, [null] and [undefined]
    elements giving the empty text; an object has no callable
    [toString] of its own to offer here, so an own property of that
    name ends in a [TypeError] and otherwise [Object.prototype.toString]
    answers. *)
Fixpoint ToString (v : JSValue) : result string :=
  match v with
  | JSUndefined => Ok "undefined"
  | JSNull => Ok "null"
  | JSBool b => Ok (if b then "true" else "false")
  | JSNumber n => Ok (Number_toString n)
  | JSString s => Ok s
  | JSFunction source => Ok source
  | JSArray items =>
      parts <- mapM (fun item =>
                       match item with
                       | JSUndefined | JSNull => Ok ""
                       | _ => ToString item
                       end) items ;;
      Ok (join "," parts)
  | JSObject props =>
      match GetOwnProperty props "toString" with
      | Some _ => Throw TypeError
      | None => Ok "[object Object]"
      end
  | JSSymbol _ => Throw TypeError
  | JSBigInt z => Ok (decimal z)
  end.

Definition ToPropertyKey (v : JSValue) : result string := ToString v.

(** [JSON.stringify] of a boolean, a number and a string.  A number that
    is not finite prints as [null]; in a string the quote, the backslash
    and the control characters are escaped. *)
Definition dquote : string := String "034"%char "".
Definition backslash : string := String "092"%char "".

Definition hex_digit (n : N) : ascii :=
  match n with
  | 0%N => "0" | 1%N => "1" | 2%N => "2" | 3%N => "3"
  | 4%N => "4" | 5%N => "5" | 6%N => "6" | 7%N => "7"
  | 8%N => "8" | 9%N => "9" | 10%N => "a" | 11%N => "b"
  | 12%N => "c" | 13%N => "d" | 14%N => "e" | _ => "f"
  end%char.

Definition escape (c : ascii) : string :=
  let n := N_of_ascii c in
  if (n =? 8)%N then backslash ++ "b"
  else if (n =? 9)%N then backslash ++ "t"
  else if (n =? 10)%N then backslash ++ "n"
  else if (n =? 12)%N then backslash ++ "f"
  else if (n =? 13)%N then backslash ++ "r"
  else if (n =? 34)%N then backslash ++ dquote
  else if (n =? 92)%N then backslash ++ backslash
  else if (n <? 32)%N then
    backslash ++ "u00" ++ String (hex_digit (n / 16)) (String (hex_digit (n mod 16)) "")
  else String c "".

Fixpoint escape_all (s : string) : string :=
  match s with
  | EmptyString => ""
  | String c rest => escape c ++ escape_all rest
  end.

Definition QuoteJSONString (s : string) : string :=
  dquote ++ escape_all s ++ dquote.

Definition JSON_stringify_bool (b : bool) : string :=
  if b then "true" else "false".

Definition JSON_stringify_number (n : number) : string :=
  let text := Number_toString n in
  if (String.eqb text "NaN" || String.eqb text "Infinity"
      || String.eqb text "-Infinity")%bool
  then "null" else text.

(** ** RHOCore terms

    The [Par] message of the wire schema as the functions see it: the
    repeated fields [exprs] and [sends], either of which a plain object
    may lack, and whatever else the node carries.  An [Expr] is the
    [expr_instance] oneof; the four alternatives that RHOCore uses are
    kept, any other one is known by its tag. *)
Inductive Par : Type :=
| mkPar (exprs : option (list Expr)) (sends : option (list Send))
        (others : list (string * JSValue))
with Expr : Type :=
| g_bool (b : bool)
| g_int (n : number)
| g_string (s : string)
| e_list_body (ps : list Par)
| other_expr (expr_instance : string)
with Send : Type :=
| mkSend (chan : Channel) (data : list Par)
with Channel : Type :=
| quote (p : Par)
| chanVar.

Definition exprs (p : Par) : option (list Expr) :=
  match p with mkPar es _ _ => es end.
Definition sends (p : Par) : option (list Send) :=
  match p with mkPar _ ss _ => ss end.
Definition chan (s : Send) : Channel :=
  match s with mkSend c _ => c end.
Definition data (s : Send) : list Par :=
  match s with mkSend _ d => d end.

(** ** [fromJSData] *)

Definition expr1 (kv : Expr) : Par := mkPar (Some [kv]) None [].

Definition no_mapping (type : string) : exn :=
  Error ("no mapping to RHOCore for " ++ type).

Definition toArry (recur : JSValue -> result Par) (items : list JSValue)
  : result Par :=
  ps <- mapM recur items ;;
  Ok (expr1 (e_list_body ps)).

(** [Object.keys(obj).sort().map(k => ...)].  The callback encodes
    [obj[k]] when it reaches key [k]; the encodings are looked up in
    [encoded], which pairs every key of [obj] with the encoding of its
    value, so that the recursion stays on the values of [obj]
    ([fromJSData_object] gives the equation in the source's form). *)
Definition keysValues (recur : JSValue -> result Par)
  (obj : list (string * JSValue)) : result Par :=
  let encoded := map (fun kv => (fst kv, recur (snd kv))) obj in
  sends <- mapM (fun k =>
                   d <- match GetOwnProperty encoded k with
                        | Some r => r
                        | None => Throw (no_mapping "undefined")
                        end ;;
                   Ok (mkSend (quote (expr1 (g_string k))) [d]))
             (sort (Object_keys obj)) ;;
  Ok (mkPar None (Some sends) []).

(** The function [recur] of [fromJSData]; [fromJSData(data)] is
    [recur(data)]. *)
Fixpoint fromJSData (x : JSValue) : result Par :=
  match x with
  | JSBool b => Ok (expr1 (g_bool b))
  | JSNumber n => Ok (expr1 (g_int n))
  | JSString s => Ok (expr1 (g_string s))
  | JSNull => Ok (mkPar None None [])
  | JSArray items => toArry fromJSData items
  | JSObject obj => keysValues fromJSData obj
  | JSUndefined | JSFunction _ | JSSymbol _ | JSBigInt _ =>
      Throw (no_mapping (typeof x))
  end.

(** ** [toJSData] *)

Definition exprs_not_RHOCore (n : nat) : exn :=
  Error (decimal (Z.of_nat n) ++ " exprs not part of RHOCore").

(** [`not RHOCore? ${ex}`], [ex] being a plain object. *)
Definition not_RHOCore : exn := Error "not RHOCore? [object Object]".

(** [recur(s.chan.quote)]: a channel that is not a quote has no [quote]
    and [recur] fails reading [exprs] of [undefined]. *)
Definition on_quote {A : Type} (recur : Par -> result A) (c : Channel)
  : result A :=
  match c with
  | quote q => recur q
  | chanVar => Throw TypeError
  end.

(** [recur(s.data[0])]. *)
Definition on_data0 {A : Type} (recur : Par -> result A) (d : list Par)
  : result A :=
  match d with
  | d0 :: _ => recur d0
  | [] => Throw TypeError
  end.

(** [(acc, s) => ({ [recur(s.chan.quote)]: recur(s.data[0]), ...acc })] *)
Definition add_send (recur : Par -> result JSValue)
  (acc : list (string * JSValue)) (s : Send)
  : result (list (string * JSValue)) :=
  match s with
  | mkSend c d =>
      key <- on_quote recur c ;;
      k <- ToPropertyKey key ;;
      v <- on_data0 recur d ;;
      Ok (spread [(k, v)] acc)
  end.

(** The function [recur] of [toJSData]. *)
Fixpoint toJSData (p : Par) : result JSValue :=
  match p with
  | mkPar (Some (ex :: rest)) _ _ =>
      match rest with
      | _ :: _ => Throw (exprs_not_RHOCore (length (ex :: rest)))
      | [] =>
          match ex with
          | g_bool b => Ok (JSBool b)
          | g_int n => Ok (JSNumber n)
          | g_string s => Ok (JSString s)
          | e_list_body ps =>
              items <- mapM toJSData ps ;; Ok (JSArray items)
          | other_expr _ => Throw not_RHOCore
          end
      end
  | mkPar _ (Some ss) _ =>
      obj <- reduceM (add_send toJSData) ss [] ;; Ok (JSObject obj)
  | mkPar _ None _ => Ok JSNull
  end.

(** ** [toRholang] *)

(** [s => `@${recur(s.chan.quote)}!(${s.data.map(recur).join(', ')})`] *)
Definition ea (recur : Par -> result string) (s : Send) : result string :=
  match s with
  | mkSend c d =>
      name <- on_quote recur c ;;
      args <- mapM recur d ;;
      Ok ("@" ++ name ++ "!(" ++ join ", " args ++ ")")
  end.

(** The function [recur] of [toRholang]; [src] is [JSON.stringify]. *)
Fixpoint toRholang (p : Par) : result string :=
  match p with
  | mkPar (Some (ex :: rest)) _ _ =>
      match rest with
      | _ :: _ => Throw (exprs_not_RHOCore (length (ex :: rest)))
      | [] =>
          match ex with
          | g_bool b => Ok (JSON_stringify_bool b)
          | g_int n => Ok (JSON_stringify_number n)
          | g_string s => Ok (QuoteJSONString s)
          | e_list_body ps =>
              items <- mapM toRholang ps ;;
              Ok ("[" ++ join ", " items ++ "]")
          | other_expr _ => Throw not_RHOCore
          end
      end
  | mkPar _ (Some ss) _ =>
      procs <- mapM (ea toRholang) ss ;; Ok (join " | " procs)
  | mkPar _ None _ => Ok "Nil"
  end.

(** ** [toByteArray]

    [Par.verify] and [Par.encode] belong to the generated module
    [protobuf/messages]; they are taken as given.  [verify] either
    returns its diagnosis ([null] or the reason as text) or throws. *)
Section ToByteArray.
Variable Writer : Type.
Variable bytes : Type.
Variable Par_verify : Par -> result (option string).
Variable Par_encode : Par -> result Writer.
Variable finish : Writer -> bytes.

Definition toByteArray (termObj : Par) : result bytes :=
  _ <- Par_verify termObj ;;
  w <- Par_encode termObj ;;
  Ok (finish w).
End ToByteArray.

(** ** The vocabulary of the properties *)

(** The order of [sort]: [a] before [b] by code units. *)
Definition key_lt (a b : string) : Prop := String.ltb a b = true.
Definition key_le (a b : string) : Prop := String.leb a b = true.

(** The data that RHOCore is meant for: booleans, integers, strings,
    [null], arrays and plain objects of such data. *)
Fixpoint supported (x : JSValue) : bool :=
  match x with
  | JSNull | JSBool _ | JSString _ => true
  | JSNumber (Integral _) => true
  | JSArray items => forallb supported items
  | JSObject props => forallb (fun kv => supported (snd kv)) props
  | JSNumber (NonIntegral _) | JSUndefined | JSFunction _
  | JSSymbol _ | JSBigInt _ => false
  end.

(** An object has each of its keys once. *)
Fixpoint distinct (keys : list string) : bool :=
  match keys with
  | [] => true
  | k :: rest => negb (existsb (String.eqb k) rest) && distinct rest
  end.

(** Every integer inside a value is at most [2^53] in magnitude: it is
    a double, and the only integer that its double stands for. *)
Fixpoint safe_integers (x : JSValue) : bool :=
  match x with
  | JSNumber (Integral z) => (Z.abs z <=? 2 ^ 53)%Z
  | JSArray items => forallb safe_integers items
  | JSObject props => forallb (fun kv => safe_integers (snd kv)) props
  | _ => true
  end.

(** Structural equality of data: arrays agree item by item, objects
    have the same keys with equal values, in whatever order. *)
Inductive same_data : JSValue -> JSValue -> Prop :=
| same_undefined : same_data JSUndefined JSUndefined
| same_null : same_data JSNull JSNull
| same_bool b : same_data (JSBool b) (JSBool b)
| same_number n : same_data (JSNumber n) (JSNumber n)
| same_string s : same_data (JSString s) (JSString s)
| same_array xs ys :
    Forall2 same_data xs ys -> same_data (JSArray xs) (JSArray ys)
| same_object ps qs :
    (forall k, GetOwnProperty ps k = None <-> GetOwnProperty qs k = None) ->
    (forall k v w,
        GetOwnProperty ps k = Some v -> GetOwnProperty qs k = Some w ->
        same_data v w) ->
    same_data (JSObject ps) (JSObject qs).

(** The kinds of failure: [fromJSData] finds no mapping for a value,
    [toJSData] and [toRholang] find a node that is not RHOCore. *)
Definition UnsupportedType (e : exn) : Prop :=
  exists type, e = no_mapping type.

Definition MalformedTerm (e : exn) : Prop :=
  e = not_RHOCore \/ exists n, e = exprs_not_RHOCore n.

(** A node without literal: [exprs] is absent or empty. *)
Definition no_exprs (es : option (list Expr)) : bool :=
  match es with
  | Some (_ :: _) => false
  | _ => true
  end.

(** The key and the value that [toJSData] reads off a send entry. *)
Definition send_entry (s : Send) : result (string * JSValue) :=
  match s with
  | mkSend c d =>
      key <- on_quote toJSData c ;;
      k <- ToPropertyKey key ;;
      v <- on_data0 toJSData d ;;
      Ok (k, v)
  end.

(** The key text of a send entry whose channel is a quoted string. *)
Definition key_text (s : Send) : option string :=
  match chan s with
  | quote (mkPar (Some [g_string k]) None []) => Some k
  | _ => None
  end.

(** The entry with its payload cut down to the first element. *)
Definition first_payload (s : Send) : Send :=
  mkSend (chan s) (firstn 1 (data s)).

(** *** Terms and their printed form, as the design describes them

    A term is a literal, a list of terms, a parallel composition of
    sends (one channel and one payload term each) or [Nil].  [print]
    writes literals in their notation, a list between brackets with its
    items separated by a comma and a space, every send as
    [@channel!(payload)] with [ | ] between sends, and [Nil] as such.
    The notation of literals and the joining of items are written here
    on their own, with the Standard Library's decimal digits and
    [String.concat], apart from what [toRholang] is made of. *)
Inductive Literal : Type :=
| Bool (b : bool)
| Int (i : Z)
| Str (s : string).

Inductive Term : Type :=
| Lit (l : Literal)
| ListLiteral (items : list Term)
| ParallelSends (entries : list (Term * Term))
| Nil.

Definition quote_mark : string := String (ascii_of_nat 34) "".






(** The integers of a term are at most [2^53] in magnitude. *)
Definition safe_literal (l : Literal) : bool :=
  match l with
  | Int i => (Z.abs i <=? 2 ^ 53)%Z
  | _ => true
  end.

Fixpoint safe_term (t : Term) : bool :=
  match t with
  | Lit l => safe_literal l
  | ListLiteral items => forallb safe_term items
  | ParallelSends entries =>
      forallb (fun e => safe_term (fst e) && safe_term (snd e)) entries
  | Nil => true
  end.

(** The node that stands for a term. *)
Fixpoint node (t : Term) : Par :=
  match t with
  | Lit (Bool b) => expr1 (g_bool b)
  | Lit (Int i) => expr1 (g_int (Integral i))
  | Lit (Str s) => expr1 (g_string s)
  | ListLiteral items => expr1 (e_list_body (map node items))
  | ParallelSends entries =>
      mkPar None
        (Some (map (fun e => mkSend (quote (node (fst e))) [node (snd e)])
                 entries))
        []
  | Nil => mkPar None None []
  end.

Section Term_induction.
Variable P : Term -> Prop.
Hypothesis Plit : forall l, P (Lit l).
Hypothesis Plist : forall items, Forall P items -> P (ListLiteral items).
Hypothesis Psends :
  forall entries,
    Forall (fun e => P (fst e) /\ P (snd e)) entries ->
    P (ParallelSends entries).
Hypothesis Pnil : P Nil.

End Term_induction.

(** The example of the design: [{"b": 1, "a": 2}]. *)
Definition example_map : JSValue :=
  JSObject [("b", JSNumber (Integral 1)); ("a", JSNumber (Integral 2))].


(** Two send entries on the same key [a], with the values 1 and 2. *)
Definition duplicate_key_term : Par :=
  mkPar None
    (Some [mkSend (quote (expr1 (g_string "a"))) [expr1 (g_int (Integral 1))];
           mkSend (quote (expr1 (g_string "a"))) [expr1 (g_int (Integral 2))]])
    [].

(** One send entry with two payload terms, and one with none. *)
Definition two_payload_term : Par :=
  mkPar None
    (Some [mkSend (quote (expr1 (g_string "k")))
             [expr1 (g_int (Integral 1)); expr1 (g_int (Integral 2))]])
    [].

Definition empty_payload_term : Par :=
  mkPar None (Some [mkSend (quote (expr1 (g_string "k"))) []]) [].

(** One send entry whose channel is the boolean literal [true]. *)
Definition bool_channel_term : Par :=
  mkPar None
    (Some [mkSend (quote (expr1 (g_bool true))) [expr1 (g_int (Integral 7))]])
    [].

(** A node with two literals. *)
Definition two_literal_term : Par :=
  mkPar (Some [g_bool true; g_int (Integral 1)]) None [].

(** A node without literal and without sends that carries something
    else. *)
Definition other_content_term : Par :=
  mkPar (Some []) None [("bundles", JSArray [JSObject []])].

(** The node that [fromJSData] gives for 1.5, with stand-ins for the
    generated verifier and encoder: the verifier reports a [g_int] that
    is not an integer by returning the reason. *)
Definition fraction_term : Par := expr1 (g_int (NonIntegral "1.5")).

Definition sample_verify (p : Par) : result (option string) :=
  match p with
  | mkPar (Some [g_int (NonIntegral _)]) _ _ =>
      Ok (Some "exprs.g_int: integer|Long expected")
  | _ => Ok None
  end.

Definition sample_encode (p : Par) : result (list N) := Ok [].

(** ** Promises, [send] and the calls to the node

    A promise is followed to the state it ends in.  It is settled once:
    [resolve] and [reject] act on a pending promise only. *)

(** [ToBoolean]. *)
Definition truthy (v : JSValue) : bool :=
  match v with
  | JSUndefined | JSNull => false
  | JSBool b => b
  | JSNumber (Integral z) => negb (z =? 0)%Z
  | JSNumber (NonIntegral text) => negb (String.eqb text "NaN")
  | JSString s => negb (String.eqb s "")
  | JSFunction _ | JSArray _ | JSObject _ | JSSymbol _ => true
  | JSBigInt z => negb (z =? 0)%Z
  end.

(** What a promise is rejected with: an exception thrown by a handler,
    or the value that was handed to [reject]. *)
Inductive reason : Type :=
| Thrown (e : exn)
| Given (v : JSValue).

Inductive promise (A : Type) : Type :=
| Pending
| Fulfilled (a : A)
| Rejected (r : reason).
Arguments Pending {A}.
Arguments Fulfilled {A} a.
Arguments Rejected {A} r.

Definition resolve {A : Type} (a : A) (p : promise A) : promise A :=
  match p with
  | Pending => Fulfilled a
  | _ => p
  end.

Definition reject {A : Type} (r : reason) (p : promise A) : promise A :=
  match p with
  | Pending => Rejected r
  | _ => p
  end.

(** [(err, result) => { if (err) { reject(err); } resolve(result); }];
    a result that is not passed is [undefined], here [None]. *)
Definition callback {A : Type} (err : JSValue) (result : option A)
  (p : promise (option A)) : promise (option A) :=
  resolve result (if truthy err then reject (Given err) p else p).

(** What the function handed to [send] does with the callback: the
    calls it makes before it returns, the value it throws if it does
    not return, and the calls made afterwards. *)
Record calling (A : Type) : Type := mkCalling {
  during : list (JSValue * option A);
  throws : option reason;
  after : list (JSValue * option A)
}.
Arguments mkCalling {A} during throws after.
Arguments during {A} c.
Arguments throws {A} c.
Arguments after {A} c.

Definition run_callbacks {A : Type} (calls : list (JSValue * option A))
  (p : promise (option A)) : promise (option A) :=
  fold_left (fun p call => callback (fst call) (snd call) p) calls p.

(** The first call of the callback, made with [err] and [res]: either
    before the function handed to [send] returns, or afterwards when
    that function made none and returned without throwing. *)
Definition first_call {A : Type} (c : calling A) (err : JSValue)
  (res : option A) : Prop :=
  exists rest,
    during c = (err, res) :: rest
    \/ (during c = [] /\ throws c = None /\ after c = (err, res) :: rest).

(** [new Promise(executor)]: an executor that throws rejects the
    promise. *)
Definition send {A : Type} (c : calling A) : promise (option A) :=
  let p := run_callbacks (during c) Pending in
  let p := match throws c with
           | Some r => reject r p
           | None => p
           end in
  run_callbacks (after c) p.

(** [p.then(handler)]. *)
Definition then_ {A B : Type} (p : promise A) (handler : A -> result B)
  : promise B :=
  match p with
  | Pending => Pending
  | Fulfilled a =>
      match handler a with
      | Ok b => Fulfilled b
      | Throw e => Rejected (Thrown e)
      end
  | Rejected r => Rejected r
  end.

Record DeployServiceResponse : Type := mkDeployServiceResponse {
  success : bool;
  message : string
}.

Record ListeningNameDataResponse (B : Type) : Type :=
  mkListeningNameDataResponse {
  status : string;
  blockResults : list B
}.
Arguments mkListeningNameDataResponse {B} status blockResults.
Arguments status {B} l.
Arguments blockResults {B} l.

Definition deployResponse (responseP : promise (option DeployServiceResponse))
  : promise string :=
  then_ responseP
    (fun response =>
       match response with
       | None => Throw TypeError
       | Some r =>
           if negb (success r) then Throw (Error (message r))
           else Ok (message r)
       end).

(** The functions of [RNode]; the gRPC client is given by what each of
    its methods does with the callback. *)
Section RNode.
Variables DeployData Block DataWithBlockInfo : Type.
Variable client_DoDeploy : DeployData -> calling DeployServiceResponse.
Variable client_createBlock : calling DeployServiceResponse.
Variable client_addBlock : Block -> calling DeployServiceResponse.
Variable client_listenForDataAtName :
  Channel -> calling (ListeningNameDataResponse DataWithBlockInfo).

Definition doDeploy (deployData : DeployData) : promise string :=
  deployResponse (send (client_DoDeploy deployData)).

Definition createBlock : promise string :=
  deployResponse (send client_createBlock).

Definition addBlock (block : Block) : promise string :=
  deployResponse (send (client_addBlock block)).

(** [new Error(response)] has the text of the response object. *)
Definition listenForDataAtName (nameObj : JSValue)
  : result (promise (list DataWithBlockInfo)) :=
  p <- fromJSData nameObj ;;
  Ok (then_ (send (client_listenForDataAtName (quote p)))
        (fun response =>
           match response with
           | None => Throw TypeError
           | Some r =>
               if negb (String.eqb (status r) "Success")
               then Throw (Error "[object Object]")
               else Ok (blockResults r)
           end)).
End RNode.

(** ** The gateway and its clients

    [context.state] is known by its [clients] property, absent or a
    list; [state_bound] tells whether the variable [state] of the
    gateway refers to [context.state] or is still [null]; [made] lists
    what [context.make] has made. *)
Section Gateway.
Variables Args Client : Type.
Variable make : Args -> result Client.

Record world : Type := mkWorld {
  context_clients : option (list Client);
  state_bound : bool;
  made : list Client
}.

(** [gateway(context)]: [state] is [context.state] if that has
    [clients], else [null]. *)
Definition gateway (context_state : option (list Client)) : world :=
  mkWorld context_state
    (match context_state with Some _ => true | None => false end) [].

Definition init (w : world) : world :=
  mkWorld (Some []) true (made w).

(** [makeClient]: what it returns or throws, and the world it leaves. *)
Definition makeClient (args : Args) (w : world) : result Client * world :=
  match make args with
  | Throw e => (Throw e, w)
  | Ok it =>
      let w1 := mkWorld (context_clients w) (state_bound w) (made w ++ [it])%list in
      if state_bound w then
        match context_clients w with
        | Some l => (Ok it, mkWorld (Some (l ++ [it])%list) true (made w1))
        | None => (Throw TypeError, w1)
        end
      else (Throw TypeError, w1)
  end.

(** [clients()]: [state.clients]. *)
Definition clients (w : world) : result (option (list Client)) :=
  if state_bound w then Ok (context_clients w) else Throw TypeError.

(** [makeClient] for each of a list of arguments, stopping at the first
    that throws. *)
Fixpoint makeClients (argss : list Args) (w : world)
  : result (list Client) * world :=
  match argss with
  | [] => (Ok [], w)
  | args :: rest =>
      match makeClient args w with
      | (Ok it, w1) =>
          match makeClients rest w1 with
          | (Ok its, w2) => (Ok (it :: its), w2)
          | (Throw e, w2) => (Throw e, w2)
          end
      | (Throw e, w1) => (Throw e, w1)
      end
  end.
End Gateway.

(** ** Further vocabulary *)

(** Every object inside a value has each of its keys once. *)
Fixpoint well_formed (x : JSValue) : bool :=
  match x with
  | JSArray items => forallb well_formed items
  | JSObject props =>
      distinct (Object_keys props)
      && forallb (fun kv => well_formed (snd kv)) props
  | _ => true
  end.

(** The types that reach the [default] branch of [fromJSData]. *)
Definition unmapped_types : list string :=
  ["undefined"; "function"; "symbol"; "bigint"].

(** No [undefined], function, symbol or big integer inside a value. *)
Fixpoint mappable (x : JSValue) : bool :=
  match x with
  | JSUndefined | JSFunction _ | JSSymbol _ | JSBigInt _ => false
  | JSArray items => forallb mappable items
  | JSObject props => forallb (fun kv => mappable (snd kv)) props
  | _ => true
  end.

(** Reading back one escaped character from the front of a text, to
    tell escaped texts apart. *)
Definition hex_value (c : ascii) : option N :=
  let n := N_of_ascii c in
  if ((48 <=? n) && (n <=? 57))%N then Some (n - 48)%N
  else if ((97 <=? n) && (n <=? 102))%N then Some (n - 87)%N
  else None.

Definition unescape1 (s : string) : option (ascii * string) :=
  match s with
  | EmptyString => None
  | String c rest =>
      if Ascii.eqb c "092" then
        match rest with
        | String "b" r => Some ("008", r)
        | String "t" r => Some ("009", r)
        | String "n" r => Some ("010", r)
        | String "f" r => Some ("012", r)
        | String "r" r => Some ("013", r)
        | String "034" r => Some ("034", r)
        | String "092" r => Some ("092", r)
        | String "u" (String "0" (String "0" (String h (String l r)))) =>
            match hex_value h, hex_value l with
            | Some a, Some b => Some (ascii_of_N (16 * a + b), r)
            | _, _ => None
            end
        | _ => None
        end%char
      else Some (c, rest)
  end.

(** The shape of an encoding: a node is [Nil], one literal or one list
    of such nodes, or sends alone, each a quoted string key with one
    payload node of that shape, the keys strictly ascending; and it
    carries nothing else. *)
Fixpoint ascending (keys : list string) : bool :=
  match keys with
  | k :: ((k' :: _) as rest) => String.ltb k k' && ascending rest
  | _ => true
  end.

Definition key_of (s : Send) : string :=
  match key_text s with
  | Some k => k
  | None => ""
  end.

Fixpoint canonical (p : Par) : bool :=
  match p with
  | mkPar None None [] => true
  | mkPar (Some [ex]) None [] =>
      match ex with
      | e_list_body ps => forallb canonical ps
      | other_expr _ => false
      | _ => true
      end
  | mkPar None (Some ss) [] =>
      forallb (fun s =>
                 match s with
                 | mkSend (quote (mkPar (Some [g_string _]) None [])) [d] =>
                     canonical d
                 | _ => false
                 end) ss
      && ascending (map key_of ss)
  | _ => false
  end.

(** The failures that a decoder or printer may end in. *)
Definition only_malformed_or_TypeError {A : Type} (r : result A) : Prop :=
  forall e, r = Throw e -> MalformedTerm e \/ e = TypeError.

(** The sub-terms that a term holds directly, for induction on terms. *)
Definition Expr_Forall (P : Par -> Prop) (e : Expr) : Prop :=
  match e with
  | e_list_body ps => Forall P ps
  | _ => True
  end.

Definition Channel_Forall (P : Par -> Prop) (c : Channel) : Prop :=
  match c with
  | quote p => P p
  | chanVar => True
  end.

Definition Send_Forall (P : Par -> Prop) (s : Send) : Prop :=
  Channel_Forall P (chan s) /\ Forall P (data s).

Definition opt_Forall {A : Type} (P : A -> Prop) (o : option (list A)) : Prop :=
  match o with
  | Some l => Forall P l
  | None => True
  end.

Section Par_induction.
Variable P : Par -> Prop.
Hypothesis step :
  forall es ss os,
    opt_Forall (Expr_Forall P) es ->
    opt_Forall (Send_Forall P) ss ->
    P (mkPar es ss os).

Fixpoint Par_nested_ind (p : Par) : P p :=
  let all_pars :=
    fix all (l : list Par) : Forall P l :=
      match l with
      | [] => Forall_nil P
      | q :: qs => Forall_cons q (Par_nested_ind q) (all qs)
      end in
  let expr_ok (e : Expr) : Expr_Forall P e :=
    match e with
    | e_list_body ps => all_pars ps
    | _ => I
    end in
  let send_ok (s : Send) : Send_Forall P s :=
    match s with
    | mkSend c d =>
        conj (match c return Channel_Forall P c with
              | quote q => Par_nested_ind q
              | chanVar => I
              end) (all_pars d)
    end in
  match p with
  | mkPar es ss os =>
      step es ss os
        (match es return opt_Forall (Expr_Forall P) es with
         | Some l =>
             (fix all (l : list Expr) : Forall (Expr_Forall P) l :=
                match l with
                | [] => Forall_nil _
                | e :: l' => Forall_cons e (expr_ok e) (all l')
                end) l
         | None => I
         end)
        (match ss return opt_Forall (Send_Forall P) ss with
         | Some l =>
             (fix all (l : list Send) : Forall (Send_Forall P) l :=
                match l with
                | [] => Forall_nil _
                | s :: l' => Forall_cons s (send_ok s) (all l')
                end) l
         | None => I
         end)
  end.
End Par_induction.

(** * Properties *)

(** ** The order of keys *)

Lemma Ascii_compare_refl (c : ascii) : Ascii.compare c c = Eq.
Proof. unfold Ascii.compare. apply N.compare_refl. Qed.

Lemma Ascii_compare_lt_trans (a b c : ascii) :
  Ascii.compare a b = Lt -> Ascii.compare b c = Lt -> Ascii.compare a c = Lt.
Proof.
  unfold Ascii.compare. rewrite !N.compare_lt_iff. apply N.lt_trans.
Qed.

Lemma String_compare_refl (s : string) : String.compare s s = Eq.
Proof.
  induction s as [|c s IH]; simpl; [reflexivity|].
  now rewrite Ascii_compare_refl.
Qed.

Lemma String_compare_lt_trans (a b c : string) :
  String.compare a b = Lt -> String.compare b c = Lt -> String.compare a c = Lt.
Proof.
  revert b c.
  induction a as [|x a IH]; intros [|y b] [|z c]; simpl; try congruence.
  destruct (Ascii.compare x y) eqn:Exy; try discriminate;
    destruct (Ascii.compare y z) eqn:Eyz; try discriminate; intros Hab Hbc.
  - apply Ascii.compare_eq_iff in Exy, Eyz. subst.
    rewrite Ascii_compare_refl. eauto.
  - apply Ascii.compare_eq_iff in Exy. subst. now rewrite Eyz.
  - apply Ascii.compare_eq_iff in Eyz. subst. now rewrite Exy.
  - now rewrite (Ascii_compare_lt_trans _ _ _ Exy Eyz).
Qed.

Lemma key_le_cases (a b : string) : key_le a b <-> a = b \/ key_lt a b.
Proof.
  unfold key_le, key_lt, String.leb, String.ltb.
  destruct (String.compare a b) eqn:E; split; intros H; auto; try discriminate.
  - left. now apply String.compare_eq_iff.
  - destruct H as [->|H]; [|discriminate].
    now rewrite String_compare_refl in E.
Qed.

Lemma key_lt_irrefl (a : string) : ~ key_lt a a.
Proof. unfold key_lt, String.ltb. now rewrite String_compare_refl. Qed.

Lemma key_lt_trans : Transitive key_lt.
Proof.
  intros a b c. unfold key_lt, String.ltb.
  destruct (String.compare a b) eqn:Eab; try discriminate.
  destruct (String.compare b c) eqn:Ebc; try discriminate.
  now rewrite (String_compare_lt_trans _ _ _ Eab Ebc).
Qed.

Lemma key_le_trans : Transitive key_le.
Proof.
  intros a b c. rewrite !key_le_cases.
  intros [->|Hab] [->|Hbc]; auto.
  right. exact (key_lt_trans _ _ _ Hab Hbc).
Qed.

(** *** [sort] orders the keys and keeps them *)

Lemma sort_Permutation (keys : list string) : Permutation keys (sort keys).
Proof. apply StringSort.Permuted_sort. Qed.

Lemma sort_sorted (keys : list string) : StronglySorted key_le (sort keys).
Proof.
  apply (StringSort.StronglySorted_sort keys).
  intros a b c Hab Hbc. exact (key_le_trans a b c Hab Hbc).
Qed.

Lemma sorted_NoDup_strict (keys : list string) :
  StronglySorted key_le keys -> NoDup keys -> StronglySorted key_lt keys.
Proof.
  induction 1 as [|k keys Hs IH Hall]; intros Hnd; constructor.
  - apply IH. now inversion Hnd.
  - inversion Hnd as [|? ? Hnotin _]; subst.
    rewrite Forall_forall in *. intros k' Hin.
    destruct (proj1 (key_le_cases k k') (Hall k' Hin)) as [->|Hlt]; tauto.
Qed.

Lemma sort_strict (keys : list string) :
  NoDup keys -> StronglySorted key_lt (sort keys).
Proof.
  intros Hnd. apply sorted_NoDup_strict; [apply sort_sorted|].
  exact (Permutation_NoDup (sort_Permutation keys) Hnd).
Qed.

(** ** Traversals that may throw *)

Lemma bind_Ok {A B : Type} (r : result A) (k : A -> result B) (b : B) :
  (x <- r ;; k x) = Ok b <-> exists a, r = Ok a /\ k a = Ok b.
Proof.
  destruct r as [a|e]; simpl; split.
  - intros H. now exists a.
  - now intros (a' & [= <-] & H).
  - discriminate.
  - now intros (a' & [=] & _).
Qed.

Lemma mapM_Forall2 {A B : Type} (f : A -> result B) (l : list A) (l' : list B) :
  mapM f l = Ok l' <-> Forall2 (fun x y => f x = Ok y) l l'.
Proof.
  revert l'. induction l as [|x xs IH]; intros l'; simpl.
  - split; [intros [= <-]; constructor | now inversion 1].
  - rewrite bind_Ok. split.
    + intros (y & Hy & Hrest). apply bind_Ok in Hrest.
      destruct Hrest as (ys & Hys & [= <-]).
      constructor; [exact Hy | now apply IH].
    + inversion 1 as [|? y ? ys Hy Hys]; subst.
      exists y. split; [exact Hy|].
      apply IH in Hys. now rewrite Hys.
Qed.

Lemma mapM_ext {A B : Type} (f g : A -> result B) (l : list A) :
  (forall x, In x l -> f x = g x) -> mapM f l = mapM g l.
Proof.
  induction l as [|x xs IH]; intros H; simpl; [reflexivity|].
  rewrite (H x (or_introl eq_refl)), IH; [reflexivity|].
  intros y Hy. apply H. now right.
Qed.

(** ** Properties of objects *)

Lemma GetOwnProperty_None {V : Type} (obj : list (string * V)) (k : string) :
  GetOwnProperty obj k = None <-> ~ In k (Object_keys obj).
Proof.
  induction obj as [|[k' v] rest IH]; simpl; [tauto|].
  destruct (String.eqb_spec k' k) as [->|Hne].
  - split; [discriminate | tauto].
  - rewrite IH. tauto.
Qed.

Lemma GetOwnProperty_In {V : Type} (obj : list (string * V)) (k : string) (v : V) :
  GetOwnProperty obj k = Some v -> In (k, v) obj.
Proof.
  induction obj as [|[k' v'] rest IH]; simpl; [discriminate|].
  destruct (String.eqb_spec k' k) as [->|Hne].
  - intros [= ->]. now left.
  - intros H. right. now apply IH.
Qed.

Lemma GetOwnProperty_map {V W : Type} (f : V -> W) (obj : list (string * V))
  (k : string) :
  GetOwnProperty (map (fun kv => (fst kv, f (snd kv))) obj) k
  = option_map f (GetOwnProperty obj k).
Proof.
  induction obj as [|[k' v] rest IH]; simpl; [reflexivity|].
  now destruct (String.eqb k' k).
Qed.

Lemma GetOwnProperty_CreateDataProperty {V : Type} (obj : list (string * V))
  (k k' : string) (v : V) :
  GetOwnProperty (CreateDataProperty obj k v) k'
  = if String.eqb k k' then Some v else GetOwnProperty obj k'.
Proof.
  induction obj as [|[k0 v0] rest IH]; simpl.
  - reflexivity.
  - destruct (String.eqb_spec k0 k) as [->|Hne]; simpl.
    + now destruct (String.eqb k k').
    + destruct (String.eqb_spec k0 k') as [->|Hne'].
      * destruct (String.eqb_spec k k'); congruence.
      * exact IH.
Qed.

Lemma In_keys_CreateDataProperty {V : Type} (obj : list (string * V))
  (k x : string) (v : V) :
  In x (Object_keys (CreateDataProperty obj k v)) ->
  x = k \/ In x (Object_keys obj).
Proof.
  induction obj as [|[k0 v0] rest IH]; simpl.
  - intros [<-|[]]. now left.
  - destruct (String.eqb_spec k0 k) as [->|Hne]; simpl; tauto.
Qed.

Lemma NoDup_keys_CreateDataProperty {V : Type} (obj : list (string * V))
  (k : string) (v : V) :
  NoDup (Object_keys obj) -> NoDup (Object_keys (CreateDataProperty obj k v)).
Proof.
  induction obj as [|[k0 v0] rest IH]; simpl; intros Hnd.
  - repeat constructor. simpl. tauto.
  - destruct (String.eqb_spec k0 k) as [->|Hne]; simpl; [exact Hnd|].
    inversion Hnd as [|? ? Hnotin Hrest]; subst.
    constructor; [|now apply IH].
    intros Hin. apply In_keys_CreateDataProperty in Hin.
    destruct Hin as [->|Hin]; tauto.
Qed.

Lemma NoDup_keys_spread {V : Type} (source target : list (string * V)) :
  NoDup (Object_keys target) -> NoDup (Object_keys (spread target source)).
Proof.
  unfold spread. revert target.
  induction source as [|[k v] rest IH]; simpl; intros target Hnd; [exact Hnd|].
  apply IH. now apply NoDup_keys_CreateDataProperty.
Qed.

(** The properties of [source] take precedence over those of [target]. *)
Lemma GetOwnProperty_spread {V : Type} (source target : list (string * V))
  (k : string) :
  NoDup (Object_keys source) ->
  GetOwnProperty (spread target source) k
  = match GetOwnProperty source k with
    | Some v => Some v
    | None => GetOwnProperty target k
    end.
Proof.
  unfold spread. revert target.
  induction source as [|[k0 v0] rest IH]; simpl; intros target Hnd;
    [reflexivity|].
  inversion Hnd as [|? ? Hnotin Hrest]; subst.
  rewrite (IH _ Hrest), GetOwnProperty_CreateDataProperty.
  destruct (String.eqb_spec k0 k) as [->|Hne]; [|reflexivity].
  apply GetOwnProperty_None in Hnotin. now rewrite Hnotin.
Qed.

Lemma distinct_NoDup (keys : list string) :
  distinct keys = true <-> NoDup keys.
Proof.
  induction keys as [|k rest IH]; simpl.
  - split; [constructor | reflexivity].
  - rewrite andb_true_iff, negb_true_iff, IH. split.
    + intros [Hk Hrest]. constructor; [|exact Hrest].
      intros Hin. assert (existsb (String.eqb k) rest = true) as E.
      { apply existsb_exists. exists k. split; [exact Hin|apply String.eqb_refl]. }
      congruence.
    + inversion 1 as [|? ? Hnotin Hrest]; subst. split; [|exact Hrest].
      destruct (existsb (String.eqb k) rest) eqn:E; [|reflexivity].
      apply existsb_exists in E. destruct E as (x & Hin & Hx).
      apply String.eqb_eq in Hx. subst. tauto.
Qed.

(** ** [fromJSData] *)

(** The encoding of an object in the source's form: the keys are sorted
    and [obj[k]] is encoded at each key in turn. *)
Lemma fromJSData_object (obj : list (string * JSValue)) :
  fromJSData (JSObject obj)
  = (sends <- mapM (fun k =>
                      d <- fromJSData (Get obj k) ;;
                      Ok (mkSend (quote (expr1 (g_string k))) [d]))
                (sort (Object_keys obj)) ;;
     Ok (mkPar None (Some sends) [])).
Proof.
  simpl. unfold keysValues. f_equal. apply mapM_ext. intros k _.
  rewrite GetOwnProperty_map. unfold Get.
  now destruct (GetOwnProperty obj k).
Qed.

Lemma fromJSData_array (items : list JSValue) :
  fromJSData (JSArray items)
  = (ps <- mapM fromJSData items ;; Ok (expr1 (e_list_body ps))).
Proof. reflexivity. Qed.

Lemma Get_In (obj : list (string * JSValue)) (k : string) :
  In k (Object_keys obj) -> In (k, Get obj k) obj.
Proof.
  intros Hin. unfold Get.
  destruct (GetOwnProperty obj k) as [v|] eqn:E.
  - now apply GetOwnProperty_In.
  - apply GetOwnProperty_None in E. tauto.
Qed.

(** On supported data the encoder returns, and what it returns is the
    node of a term, whose integers are as small as those of the data. *)
Lemma fromJSData_term (v : JSValue) :
  supported v = true ->
  exists t,
    fromJSData v = Ok (node t)
    /\ (safe_integers v = true -> safe_term t = true).
Proof.
  induction v as [| |b|[z|text]|s|f|items IH|props IH|d|z0]
    using JSValue_nested_ind; simpl supported; intros Hs; try discriminate.
  - exists Nil. split; reflexivity.
  - exists (Lit (Bool b)). split; reflexivity.
  - exists (Lit (Int z)). split; [reflexivity | trivial].
  - exists (Lit (Str s)). split; reflexivity.
  - assert (exists ts,
               mapM fromJSData items = Ok (map node ts)
               /\ (forallb safe_integers items = true ->
                   forallb safe_term ts = true)) as (ts & Hts & Hsafe).
    { induction IH as [|x xs Hx _ IHxs]; simpl in *.
      - exists []. split; reflexivity.
      - apply andb_true_iff in Hs. destruct Hs as [Hsx Hsxs].
        destruct (Hx Hsx) as (t & Ht & Hst).
        destruct (IHxs Hsxs) as (ts & Hts & Hsts).
        exists (t :: ts). rewrite Ht, Hts. split; [reflexivity|].
        simpl. rewrite !andb_true_iff. intros [H1 H2]. auto. }
    exists (ListLiteral ts). rewrite fromJSData_array, Hts.
    split; [reflexivity | exact Hsafe].
  - rewrite fromJSData_object.
    assert (forall keys, incl keys (Object_keys props) ->
            exists es,
              mapM (fun k =>
                      d <- fromJSData (Get props k) ;;
                      Ok (mkSend (quote (expr1 (g_string k))) [d])) keys
              = Ok (map (fun e => mkSend (quote (node (fst e))) [node (snd e)])
                      es)
              /\ (forallb (fun kv => safe_integers (snd kv)) props = true ->
                  forallb (fun e => safe_term (fst e) && safe_term (snd e)) es
                  = true)) as Hkeys.
    { induction keys as [|k keys IHkeys]; intros Hincl; simpl.
      - exists []. split; reflexivity.
      - destruct IHkeys as (es & Hes & Hsafe).
        { intros x Hx. apply Hincl. now right. }
        assert (In (k, Get props k) props) as Hin.
        { apply Get_In, Hincl. now left. }
        rewrite Forall_forall in IH. rewrite forallb_forall in Hs.
        destruct (IH _ Hin (Hs _ Hin)) as (t & Ht & Hst). simpl in Ht, Hst.
        exists ((Lit (Str k), t) :: es). rewrite Ht, Hes.
        split; [reflexivity|]. intros Hall. simpl.
        rewrite (Hsafe Hall), andb_true_r. apply Hst.
        rewrite forallb_forall in Hall. exact (Hall _ Hin). }
    destruct (Hkeys (sort (Object_keys props))) as (es & Hes & Hsafe).
    { intros x Hx.
      exact (Permutation_in x (Permutation_sym (sort_Permutation _)) Hx). }
    exists (ParallelSends es). rewrite Hes. split; [reflexivity | exact Hsafe].
Qed.

Lemma fromJSData_supported (v : JSValue) :
  supported v = true -> exists t, fromJSData v = Ok (node t).
Proof.
  intros Hs. destruct (fromJSData_term v Hs) as (t & Ht & _). now exists t.
Qed.

Lemma fromJSData_total_on_supported (v : JSValue) :
  supported v = true -> is_ok (fromJSData v) = true.
Proof.
  intros Hs. destruct (fromJSData_supported v Hs) as (t & Ht).
  now rewrite Ht.
Qed.

Lemma fromJSData_rejects_unmapped_type (x : JSValue) :
  typeof x = "undefined" \/ typeof x = "function" ->
  fromJSData x = Throw (no_mapping (typeof x))
  /\ UnsupportedType (no_mapping (typeof x)).
Proof.
  intros H. split; [|now exists (typeof x)].
  destruct x as [| |b|n|s|f|items|props|d|z]; simpl in *;
    try reflexivity; destruct H; discriminate.
Qed.

(** The entries that an object is encoded to, key by key. *)
Lemma keysValues_entries (obj : list (string * JSValue)) (keys : list string)
  (ss : list Send) :
  mapM (fun k =>
          d <- fromJSData (Get obj k) ;;
          Ok (mkSend (quote (expr1 (g_string k))) [d])) keys = Ok ss ->
  Forall2 (fun k s =>
             exists d, fromJSData (Get obj k) = Ok d
                       /\ s = mkSend (quote (expr1 (g_string k))) [d])
    keys ss.
Proof.
  rewrite mapM_Forall2. intros H.
  induction H as [|k s keys ss Hks _ IH]; constructor; [|exact IH].
  apply bind_Ok in Hks. destruct Hks as (d & Hd & [= <-]). now exists d.
Qed.

(** C2. The send entries that [fromJSData] gives for a map have the
    keys of the map as channels, each a quoted string literal, in
    strictly ascending order of the key text; and [fromJSData] does
    give them when the values of the map are supported data. *)
Theorem fromJSData_keys_ascending (m : list (string * JSValue)) :
  distinct (Object_keys m) = true ->
  (forall p,
      fromJSData (JSObject m) = Ok p ->
      exists ss ks,
        p = mkPar None (Some ss) []
        /\ map key_text ss = map Some ks
        /\ StronglySorted key_lt ks
        /\ Permutation (Object_keys m) ks)
  /\ (supported (JSObject m) = true -> is_ok (fromJSData (JSObject m)) = true).
Proof.
  intros Hd. split; [|apply fromJSData_total_on_supported].
  intros p Hp. rewrite fromJSData_object in Hp.
  apply bind_Ok in Hp. destruct Hp as (ss & Hss & [= <-]).
  exists ss, (sort (Object_keys m)). split; [reflexivity|]. split; [|split].
  - apply keysValues_entries in Hss.
    induction Hss as [|k s ks ss' (d & _ & ->) _ IH]; simpl; [reflexivity|].
    now rewrite IH.
  - apply sort_strict. now apply distinct_NoDup.
  - apply sort_Permutation.
Qed.

Lemma fromJSData_keys_ascending_witness :
  distinct (Object_keys [("b", JSNumber (Integral 1));
                         ("a", JSNumber (Integral 2))]) = true
  /\ exists ss ks,
      mkPar None
        (Some [mkSend (quote (expr1 (g_string "a"))) [expr1 (g_int (Integral 2))];
               mkSend (quote (expr1 (g_string "b"))) [expr1 (g_int (Integral 1))]])
        []
      = mkPar None (Some ss) []
      /\ map key_text ss = map Some ks
      /\ StronglySorted key_lt ks
      /\ Permutation (Object_keys [("b", JSNumber (Integral 1));
                                   ("a", JSNumber (Integral 2))]) ks.
Proof.
  split; [reflexivity|].
  apply (fromJSData_keys_ascending
           [("b", JSNumber (Integral 1)); ("a", JSNumber (Integral 2))]);
    reflexivity.
Defined.

(** C4. A number with a fractional part is outside the supported data,
    and [fromJSData] does not fail on it: it comes out as a [g_int]
    literal holding the fraction. *)
Theorem fromJSData_accepts_fraction :
  supported (JSNumber (NonIntegral "1.5")) = false
  /\ fromJSData (JSNumber (NonIntegral "1.5"))
     = Ok (expr1 (g_int (NonIntegral "1.5"))).
Proof. split; reflexivity. Qed.

(** ** [toJSData] *)

Lemma toJSData_sends (es : option (list Expr)) (ss : list Send)
  (os : list (string * JSValue)) :
  no_exprs es = true ->
  toJSData (mkPar es (Some ss) os)
  = (obj <- reduceM (add_send toJSData) ss [] ;; Ok (JSObject obj)).
Proof. destruct es as [[|e es]|]; simpl; [reflexivity|discriminate|reflexivity]. Qed.

Lemma add_send_entry (acc : list (string * JSValue)) (s : Send) :
  add_send toJSData acc s = (kv <- send_entry s ;; Ok (spread [kv] acc)).
Proof.
  destruct s as [c d]. unfold add_send, send_entry.
  destruct (on_quote toJSData c) as [key|e]; simpl; [|reflexivity].
  destruct (ToPropertyKey key) as [k|e]; simpl; [|reflexivity].
  now destruct (on_data0 toJSData d).
Qed.

(** The object that the reduction builds: a key keeps the value it got
    first, from the accumulator or from the earliest entry with it. *)
Lemma reduceM_add_send (ss : list Send) :
  forall (kvs acc : list (string * JSValue)),
    mapM send_entry ss = Ok kvs ->
    NoDup (Object_keys acc) ->
    exists o,
      reduceM (add_send toJSData) ss acc = Ok o
      /\ NoDup (Object_keys o)
      /\ forall k,
          GetOwnProperty o k
          = match GetOwnProperty acc k with
            | Some x => Some x
            | None => GetOwnProperty kvs k
            end.
Proof.
  induction ss as [|s ss IH]; intros kvs acc Hkvs Hnd; simpl in *.
  - injection Hkvs as <-. exists acc. repeat split; [exact Hnd|].
    intros k. now destruct (GetOwnProperty acc k).
  - apply bind_Ok in Hkvs. destruct Hkvs as ([k0 v0] & Hs & Hrest).
    apply bind_Ok in Hrest. destruct Hrest as (kvs' & Hkvs' & [= <-]).
    rewrite add_send_entry, Hs. simpl bind.
    destruct (IH kvs' (spread [(k0, v0)] acc) Hkvs') as (o & Ho & Hndo & Hget).
    { apply NoDup_keys_spread. repeat constructor. simpl. tauto. }
    exists o. repeat split; [exact Ho | exact Hndo |].
    intros k. rewrite Hget, (GetOwnProperty_spread acc _ k Hnd). simpl.
    destruct (GetOwnProperty acc k); [reflexivity|].
    now destruct (String.eqb k0 k).
Qed.

Lemma GetOwnProperty_app_first {V : Type} (before after : list (string * V))
  (k : string) (v : V) :
  ~ In k (Object_keys before) ->
  GetOwnProperty ((before ++ (k, v) :: after)%list) k = Some v.
Proof.
  induction before as [|[k0 v0] rest IH]; simpl; intros Hnotin.
  - now rewrite String.eqb_refl.
  - destruct (String.eqb_spec k0 k) as [->|Hne]; [tauto|].
    apply IH. tauto.
Qed.

(** C7. When the send entries of a node all decode, the decoded map
    holds, for each key, the value of the earliest entry with that
    key: an entry that comes later with the same key is dropped. *)
Theorem toJSData_earlier_entry_wins (es : option (list Expr))
  (ss : list Send) (os kvs : list (string * JSValue)) :
  no_exprs es = true ->
  mapM send_entry ss = Ok kvs ->
  exists o,
    toJSData (mkPar es (Some ss) os) = Ok (JSObject o)
    /\ (forall k, GetOwnProperty o k = GetOwnProperty kvs k)
    /\ (forall before k v after,
           kvs = (before ++ (k, v) :: after)%list ->
           ~ In k (Object_keys before) ->
           GetOwnProperty o k = Some v).
Proof.
  intros Hes Hkvs.
  destruct (reduceM_add_send ss kvs [] Hkvs) as (o & Ho & _ & Hget);
    [constructor|].
  exists o. rewrite (toJSData_sends es ss os Hes), Ho.
  split; [reflexivity|]. split; [exact Hget|].
  intros before k v after -> Hnotin. rewrite Hget.
  now apply GetOwnProperty_app_first.
Qed.

Lemma toJSData_earlier_entry_wins_witness :
  no_exprs None = true
  /\ mapM send_entry
       [mkSend (quote (expr1 (g_string "a"))) [expr1 (g_int (Integral 1))];
        mkSend (quote (expr1 (g_string "a"))) [expr1 (g_int (Integral 2))]]
     = Ok [("a", JSNumber (Integral 1)); ("a", JSNumber (Integral 2))]
  /\ exists o,
      toJSData duplicate_key_term = Ok (JSObject o)
      /\ GetOwnProperty o "a" = Some (JSNumber (Integral 1)).
Proof.
  split; [reflexivity|]. split; [reflexivity|].
  destruct (toJSData_earlier_entry_wins None
              [mkSend (quote (expr1 (g_string "a"))) [expr1 (g_int (Integral 1))];
               mkSend (quote (expr1 (g_string "a"))) [expr1 (g_int (Integral 2))]]
              []
              [("a", JSNumber (Integral 1)); ("a", JSNumber (Integral 2))]
              eq_refl eq_refl)
    as (o & Ho & _ & Hfirst).
  exists o. split; [exact Ho|].
  apply (Hfirst [] "a" (JSNumber (Integral 1)) [("a", JSNumber (Integral 2))]);
    [reflexivity | simpl; tauto].
Defined.

(** C7, as claimed: on two entries with the key [a], the first with
    value 1 and the second with value 2, the decoded map has 1 at [a],
    not the value of the later entry. *)
Lemma toJSData_later_entry_loses :
  toJSData duplicate_key_term = Ok (JSObject [("a", JSNumber (Integral 1))])
  /\ ~ (exists o,
           toJSData duplicate_key_term = Ok (JSObject o)
           /\ GetOwnProperty o "a" = Some (JSNumber (Integral 2))).
Proof.
  split; [reflexivity|].
  intros (o & Ho & Hget). simpl in Ho. injection Ho as <-.
  discriminate Hget.
Qed.

(** *** Round trip *)





Lemma send_entry_In (ss : list Send) (kvs : list (string * JSValue)) (s : Send) :
  mapM send_entry ss = Ok kvs ->
  In s ss ->
  exists kv, send_entry s = Ok kv /\ In kv kvs.
Proof.
  rewrite mapM_Forall2. induction 1 as [|s' kv ss' kvs' Hs _ IH]; simpl.
  - tauto.
  - intros [<-|Hin].
    + exists kv. tauto.
    + destruct (IH Hin) as (kv' & Hkv' & Hin'). exists kv'. tauto.
Qed.

(** C6. The decoder does not look at the kind of value that a channel
    decodes to: the value is turned into a property key by the string
    conversion, and the decoded map has an entry under that key. *)
Theorem toJSData_key_of_channel (es : option (list Expr)) (ss : list Send)
  (os kvs : list (string * JSValue)) :
  no_exprs es = true ->
  mapM send_entry ss = Ok kvs ->
  exists o,
    toJSData (mkPar es (Some ss) os) = Ok (JSObject o)
    /\ forall s ch c k,
        In s ss ->
        chan s = quote ch ->
        toJSData ch = Ok c ->
        ToPropertyKey c = Ok k ->
        In k (Object_keys o).
Proof.
  intros Hes Hkvs.
  destruct (reduceM_add_send ss kvs [] Hkvs) as (o & Ho & _ & Hget);
    [constructor|].
  exists o. rewrite (toJSData_sends es ss os Hes), Ho.
  split; [reflexivity|].
  intros [c0 d] ch c k Hin Hch Hc Hk. simpl in Hch. subst c0.
  destruct (send_entry_In ss kvs _ Hkvs Hin) as ([k' v] & Hs & Hin').
  cbn [send_entry on_quote] in Hs. rewrite Hc in Hs. cbn [bind] in Hs.
  rewrite Hk in Hs. cbn [bind] in Hs.
  apply bind_Ok in Hs. destruct Hs as (v' & _ & [= <- <-]).
  destruct (in_dec string_dec k (Object_keys o)) as [Hyes|Hno]; [exact Hyes|].
  apply GetOwnProperty_None in Hno. rewrite Hget in Hno. simpl in Hno.
  apply GetOwnProperty_None in Hno. exfalso. apply Hno.
  exact (in_map fst kvs (k, v') Hin').
Qed.

Lemma toJSData_key_of_channel_witness :
  no_exprs None = true
  /\ mapM send_entry
       [mkSend (quote (expr1 (g_bool true))) [expr1 (g_int (Integral 7))]]
     = Ok [("true", JSNumber (Integral 7))]
  /\ exists o,
      toJSData bool_channel_term = Ok (JSObject o)
      /\ In "true" (Object_keys o).
Proof.
  split; [reflexivity|]. split; [reflexivity|].
  destruct (toJSData_key_of_channel None
              [mkSend (quote (expr1 (g_bool true))) [expr1 (g_int (Integral 7))]]
              [] [("true", JSNumber (Integral 7))] eq_refl eq_refl)
    as (o & Ho & Hkey).
  exists o. split; [exact Ho|].
  apply (Hkey (mkSend (quote (expr1 (g_bool true))) [expr1 (g_int (Integral 7))])
           (expr1 (g_bool true)) (JSBool true) "true");
    [left; reflexivity | reflexivity | reflexivity | reflexivity].
Defined.

(** C6, as claimed: a send entry whose channel is the boolean literal
    [true] is decoded to a map entry under the key [true]; there is no
    failure. *)
Lemma toJSData_bool_channel_decodes :
  toJSData bool_channel_term = Ok (JSObject [("true", JSNumber (Integral 7))])
  /\ ~ (exists e, toJSData bool_channel_term = Throw e /\ MalformedTerm e).
Proof.
  split; [reflexivity|]. intros (e & He & _). discriminate He.
Qed.

(** C8. A node whose [exprs] holds more than one literal is rejected by
    [toJSData] and by [toRholang], with the same error. *)
Theorem multiple_exprs_rejected (p : Par) (es : list Expr) :
  exprs p = Some es ->
  1 < length es ->
  toJSData p = Throw (exprs_not_RHOCore (length es))
  /\ toRholang p = Throw (exprs_not_RHOCore (length es))
  /\ MalformedTerm (exprs_not_RHOCore (length es)).
Proof.
  destruct p as [es' ss os]. simpl. intros -> Hlen.
  destruct es as [|e1 [|e2 es]]; simpl in Hlen; try lia.
  repeat split. right. now eexists.
Qed.

Lemma multiple_exprs_rejected_witness :
  exprs two_literal_term = Some [g_bool true; g_int (Integral 1)]
  /\ 1 < length [g_bool true; g_int (Integral 1)]
  /\ toJSData two_literal_term = Throw (Error "2 exprs not part of RHOCore")
  /\ toRholang two_literal_term = Throw (Error "2 exprs not part of RHOCore")
  /\ MalformedTerm (Error "2 exprs not part of RHOCore").
Proof.
  split; [reflexivity|]. split; [simpl; lia|].
  apply (multiple_exprs_rejected two_literal_term
           [g_bool true; g_int (Integral 1)]); [reflexivity | simpl; lia].
Defined.

(** C10. A node with no literal in [exprs] and without [sends] decodes
    to [null] and prints as [Nil], whatever else it carries. *)
Theorem empty_node_is_null (p : Par) :
  no_exprs (exprs p) = true ->
  sends p = None ->
  toJSData p = Ok JSNull /\ toRholang p = Ok "Nil".
Proof.
  destruct p as [[[|e es]|] [ss|] os]; simpl; intros Hes Hss;
    try discriminate; split; reflexivity.
Qed.

Lemma empty_node_is_null_witness :
  no_exprs (exprs other_content_term) = true
  /\ sends other_content_term = None
  /\ toJSData other_content_term = Ok JSNull
  /\ toRholang other_content_term = Ok "Nil".
Proof.
  split; [reflexivity|]. split; [reflexivity|].
  apply (empty_node_is_null other_content_term); reflexivity.
Defined.

(** ** [toRholang] *)

Lemma toRholang_sends (es : option (list Expr)) (ss : list Send)
  (os : list (string * JSValue)) :
  no_exprs es = true ->
  toRholang (mkPar es (Some ss) os)
  = (procs <- mapM (ea toRholang) ss ;; Ok (join " | " procs)).
Proof. destruct es as [[|e es]|]; simpl; [reflexivity|discriminate|reflexivity]. Qed.

Lemma mapM_is_ok {A B : Type} (f : A -> result B) (l : list A) :
  Forall (fun x => is_ok (f x) = true) l -> is_ok (mapM f l) = true.
Proof.
  induction 1 as [|x xs Hx _ IH]; simpl; [reflexivity|].
  destruct (f x); [|discriminate]. simpl.
  destruct (mapM f xs); [reflexivity | discriminate].
Qed.






Lemma join_concat (sep : string) (parts : list string) :
  join sep parts = String.concat sep parts.
Proof.
  induction parts as [|x l IH]; [reflexivity|].
  destruct l as [|y l]; [reflexivity|].
  change (join sep (x :: y :: l)) with (x ++ sep ++ join sep (y :: l)).
  change (String.concat sep (x :: y :: l))
    with (x ++ sep ++ String.concat sep (y :: l)).
  now rewrite IH.
Qed.

Lemma decimal_reads_back (z : Z) :
  NilZero.int_of_string (decimal z) = Some (Z.to_int z).
Proof.
  unfold decimal. apply NilZero.isi.
  - destruct z; simpl; try discriminate.
    intros [= E]. exact (Unsigned.to_uint_nonnil _ E).
  - destruct z; simpl; try discriminate.
    intros [= E]. exact (Unsigned.to_uint_nonnil _ E).
Qed.

Lemma decimal_is_finite (z : Z) :
  (String.eqb (decimal z) "NaN" || String.eqb (decimal z) "Infinity"
   || String.eqb (decimal z) "-Infinity")%bool = false.
Proof.
  pose proof (decimal_reads_back z) as H.
  rewrite !orb_false_iff. repeat split; apply String.eqb_neq; intros E;
    rewrite E in H; discriminate H.
Qed.

(** An integer up to [2^53] prints as its digits. *)
Lemma JSON_stringify_number_safe (z : Z) :
  (Z.abs z <=? 2 ^ 53)%Z = true ->
  JSON_stringify_number (Integral z) = decimal z.
Proof.
  intros H. unfold JSON_stringify_number, Number_toString. rewrite H.
  now rewrite decimal_is_finite.
Qed.





(** *** The length of a payload *)

Lemma add_send_first_payload (acc : list (string * JSValue)) (s : Send) :
  add_send toJSData acc (first_payload s) = add_send toJSData acc s.
Proof. destruct s as [c [|d0 d]]; reflexivity. Qed.

Lemma reduceM_first_payload (ss : list Send) :
  forall acc,
    reduceM (add_send toJSData) (map first_payload ss) acc
    = reduceM (add_send toJSData) ss acc.
Proof.
  induction ss as [|s ss IH]; intros acc; cbn [map reduceM]; [reflexivity|].
  rewrite add_send_first_payload.
  destruct (add_send toJSData acc s); cbn [bind]; [apply IH | reflexivity].
Qed.

Lemma add_send_empty_payload (acc : list (string * JSValue)) (s : Send) :
  data s = [] -> is_ok (add_send toJSData acc s) = false.
Proof.
  destruct s as [c d]. simpl. intros ->.
  destruct (on_quote toJSData c) as [key|e]; simpl; [|reflexivity].
  now destruct (ToPropertyKey key).
Qed.

Lemma reduceM_empty_payload (ss : list Send) :
  Exists (fun s => data s = []) ss ->
  forall acc, is_ok (reduceM (add_send toJSData) ss acc) = false.
Proof.
  induction 1 as [s ss Hs|s ss _ IH]; intros acc; simpl.
  - pose proof (add_send_empty_payload acc s Hs) as H.
    destruct (add_send toJSData acc s); [discriminate | reflexivity].
  - destruct (add_send toJSData acc s); simpl; [apply IH | reflexivity].
Qed.

Lemma ea_rendered (ss : list Send) (rendered : list (string * list string)) :
  Forall2 (fun s r =>
             on_quote toRholang (chan s) = Ok (fst r)
             /\ Forall2 (fun d a => toRholang d = Ok a) (data s) (snd r))
    ss rendered ->
  mapM (ea toRholang) ss
  = Ok (map (fun r =>
               "@" ++ fst r ++ "!(" ++ String.concat ", " (snd r) ++ ")")
          rendered).
Proof.
  induction 1 as [|[c d] [name args] ss rendered [Hc Hd] _ IH];
    [reflexivity|].
  simpl in Hc, Hd. apply mapM_Forall2 in Hd.
  cbn [mapM ea map fst snd]. rewrite Hc. cbn [bind]. rewrite Hd. cbn [bind].
  now rewrite IH, join_concat.
Qed.

(** C5. Neither function checks that a payload has one element.
    [toJSData] decodes the first element of each payload and passes
    over the others; on an entry with an empty payload it fails.
    [toRholang] prints every element of a payload: the text of an
    entry is [@], the channel, and between parentheses the texts of
    all the payload elements, separated by a comma and a space; the
    texts of the entries are separated by [ | ]. *)
Theorem payload_length_not_checked (es : option (list Expr)) (ss : list Send)
  (os : list (string * JSValue)) :
  no_exprs es = true ->
  toJSData (mkPar es (Some ss) os)
  = toJSData (mkPar es (Some (map first_payload ss)) os)
  /\ (Exists (fun s => data s = []) ss ->
      is_ok (toJSData (mkPar es (Some ss) os)) = false)
  /\ (forall rendered : list (string * list string),
        Forall2 (fun s r =>
                   on_quote toRholang (chan s) = Ok (fst r)
                   /\ Forall2 (fun d a => toRholang d = Ok a) (data s) (snd r))
          ss rendered ->
        toRholang (mkPar es (Some ss) os)
        = Ok (String.concat " | "
                (map (fun r =>
                        "@" ++ fst r ++ "!(" ++ String.concat ", " (snd r)
                        ++ ")")
                   rendered))).
Proof.
  intros Hes. rewrite !(toJSData_sends es _ os Hes), reduceM_first_payload.
  split; [reflexivity|]. split.
  - intros Hex. pose proof (reduceM_empty_payload ss Hex []) as H.
    destruct (reduceM (add_send toJSData) ss []); [discriminate | reflexivity].
  - intros rendered Hall. rewrite (toRholang_sends es ss os Hes).
    rewrite (ea_rendered ss rendered Hall). cbn [bind].
    now rewrite join_concat.
Qed.

Lemma payload_length_not_checked_witness :
  no_exprs None = true
  /\ toJSData two_payload_term = Ok (JSObject [("k", JSNumber (Integral 1))])
  /\ is_ok (toJSData empty_payload_term) = false
  /\ toRholang two_payload_term
     = Ok ("@" ++ quote_mark ++ "k" ++ quote_mark ++ "!(1, 2)")
  /\ toRholang empty_payload_term
     = Ok ("@" ++ quote_mark ++ "k" ++ quote_mark ++ "!()").
Proof.
  split; [reflexivity|].
  pose proof (payload_length_not_checked None
                [mkSend (quote (expr1 (g_string "k")))
                   [expr1 (g_int (Integral 1)); expr1 (g_int (Integral 2))]]
                [] eq_refl) as (Hfirst & _ & Hprint).
  pose proof (payload_length_not_checked None
                [mkSend (quote (expr1 (g_string "k"))) []]
                [] eq_refl) as (_ & Hempty & Hprint0).
  split; [exact Hfirst|]. split; [|split].
  - apply Hempty. constructor. reflexivity.
  - apply (Hprint [(quote_mark ++ "k" ++ quote_mark, ["1"; "2"])]).
    repeat constructor.
  - apply (Hprint0 [(quote_mark ++ "k" ++ quote_mark, [])]).
    repeat constructor.
Defined.

(** C5, as claimed: an entry with two payload terms is decoded (to its
    first term) and printed (with both terms), and an entry without
    payload is printed with empty parentheses; none of these fails. *)
Lemma payload_length_unnoticed :
  toJSData two_payload_term = Ok (JSObject [("k", JSNumber (Integral 1))])
  /\ toRholang two_payload_term
     = Ok ("@" ++ dquote ++ "k" ++ dquote ++ "!(1, 2)")
  /\ toRholang empty_payload_term = Ok ("@" ++ dquote ++ "k" ++ dquote ++ "!()")
  /\ ~ (exists e, toJSData two_payload_term = Throw e /\ MalformedTerm e)
  /\ ~ (exists e, toRholang two_payload_term = Throw e /\ MalformedTerm e)
  /\ ~ (exists e, toRholang empty_payload_term = Throw e /\ MalformedTerm e).
Proof.
  repeat (split; [reflexivity|]).
  repeat split; intros (e & He & _); discriminate He.
Qed.

(** ** [toByteArray] *)

(** C9. The diagnosis that [Par.verify] returns is not looked at: once
    [verify] has returned, with [null] or with a reason, the bytes are
    those of [Par.encode(termObj).finish()]. *)
Theorem toByteArray_discards_diagnosis (Writer bytes : Type)
  (Par_verify : Par -> result (option string))
  (Par_encode : Par -> result Writer) (finish : Writer -> bytes)
  (termObj : Par) (diagnosis : option string) :
  Par_verify termObj = Ok diagnosis ->
  toByteArray Writer bytes Par_verify Par_encode finish termObj
  = (w <- Par_encode termObj ;; Ok (finish w)).
Proof. intros H. unfold toByteArray. now rewrite H. Qed.

Lemma toByteArray_discards_diagnosis_witness :
  sample_verify fraction_term = Ok (Some "exprs.g_int: integer|Long expected")
  /\ toByteArray (list N) (list N) sample_verify sample_encode (fun w => w)
       fraction_term
     = Ok [].
Proof.
  split; [reflexivity|].
  apply (toByteArray_discards_diagnosis (list N) (list N) sample_verify
           sample_encode (fun w => w) fraction_term
           (Some "exprs.g_int: integer|Long expected")).
  reflexivity.
Defined.

(** * Further properties *)

(** ** Sorting is canonical *)

Lemma key_le_antisym (a b : string) : key_le a b -> key_le b a -> a = b.
Proof. apply String.leb_antisym. Qed.

Lemma sorted_Permutation_eq (l l' : list string) :
  StronglySorted key_le l -> StronglySorted key_le l' ->
  Permutation l l' -> l = l'.
Proof.
  intros Hl. revert l'.
  induction Hl as [|a l Hs IH Ha]; intros l' Hl' Hperm.
  - apply Permutation_nil in Hperm. now subst.
  - destruct Hl' as [|b l' Hs' Hb].
    + apply Permutation_sym, Permutation_nil in Hperm. discriminate.
    + assert (a = b) as <-.
      { rewrite Forall_forall in Ha, Hb.
        assert (In a (b :: l')) as [->|Hin]
            by (apply (Permutation_in a Hperm); now left); [reflexivity|].
        assert (In b (a :: l)) as [->|Hin']
            by (apply (Permutation_in b (Permutation_sym Hperm)); now left);
          [reflexivity|].
        apply key_le_antisym; auto. }
      f_equal. apply IH; [exact Hs'|].
      exact (Permutation_cons_inv Hperm).
Qed.

Lemma sort_Permutation_eq (l l' : list string) :
  Permutation l l' -> sort l = sort l'.
Proof.
  intros Hperm. apply sorted_Permutation_eq; try apply sort_sorted.
  rewrite <- (sort_Permutation l), <- (sort_Permutation l'). exact Hperm.
Qed.

(** ** More on traversals and objects *)

Lemma bind_Throw {A B : Type} (r : result A) (k : A -> result B) (e : exn) :
  (x <- r ;; k x) = Throw e <->
  r = Throw e \/ exists a, r = Ok a /\ k a = Throw e.
Proof.
  destruct r as [a|e']; simpl; split.
  - intros H. right. now exists a.
  - intros [H|(a' & [= <-] & H)]; [discriminate | exact H].
  - intros [= ->]. now left.
  - intros [[= ->]|(a' & [=] & _)]. reflexivity.
Qed.

Lemma mapM_Throw_inv {A B : Type} (f : A -> result B) (l : list A) (e : exn) :
  mapM f l = Throw e -> exists x, In x l /\ f x = Throw e.
Proof.
  induction l as [|x xs IH]; simpl; [discriminate|].
  rewrite bind_Throw. intros [H|(y & _ & H)].
  - exists x. tauto.
  - apply bind_Throw in H. destruct H as [H|(ys & _ & H)]; [|discriminate].
    destruct (IH H) as (x' & Hin & Hx'). exists x'. tauto.
Qed.

Lemma mapM_is_ok_forallb {A B : Type} (f : A -> result B) (l : list A) :
  is_ok (mapM f l) = forallb (fun x => is_ok (f x)) l.
Proof.
  induction l as [|x xs IH]; simpl; [reflexivity|].
  destruct (f x); simpl; [|reflexivity].
  rewrite <- IH. now destruct (mapM f xs).
Qed.

Lemma forallb_Permutation {A : Type} (f : A -> bool) (l l' : list A) :
  Permutation l l' -> forallb f l = forallb f l'.
Proof.
  intros Hperm. apply eq_true_iff_eq. rewrite !forallb_forall.
  split; intros H x Hin; apply H.
  - exact (Permutation_in x (Permutation_sym Hperm) Hin).
  - exact (Permutation_in x Hperm Hin).
Qed.

Lemma forallb_map_eq {A B : Type} (f : B -> bool) (g : A -> B) (l : list A) :
  forallb f (map g l) = forallb (fun x => f (g x)) l.
Proof. induction l as [|x xs IH]; simpl; [reflexivity | now rewrite IH]. Qed.

Lemma forallb_eq_in {A : Type} (f g : A -> bool) (l : list A) :
  (forall x, In x l -> f x = g x) -> forallb f l = forallb g l.
Proof.
  induction l as [|x xs IH]; simpl; intros H; [reflexivity|].
  rewrite (H x (or_introl eq_refl)), IH; [reflexivity|].
  intros y Hy. apply H. now right.
Qed.

Lemma GetOwnProperty_NoDup {V : Type} (obj : list (string * V)) (k : string)
  (v : V) :
  NoDup (Object_keys obj) -> In (k, v) obj -> GetOwnProperty obj k = Some v.
Proof.
  induction obj as [|[k0 v0] rest IH]; simpl; [tauto|].
  intros Hnd [[= -> ->]|Hin].
  - now rewrite String.eqb_refl.
  - inversion Hnd as [|? ? Hnotin Hrest]; subst.
    destruct (String.eqb_spec k0 k) as [->|Hne].
    + exfalso. apply Hnotin. exact (in_map fst rest (k, v) Hin).
    + now apply IH.
Qed.

Lemma Get_NoDup (obj : list (string * JSValue)) (k : string) (v : JSValue) :
  NoDup (Object_keys obj) -> In (k, v) obj -> Get obj k = v.
Proof.
  intros Hnd Hin. unfold Get. now rewrite (GetOwnProperty_NoDup obj k v Hnd Hin).
Qed.

Lemma well_formed_object (props : list (string * JSValue)) :
  well_formed (JSObject props) = true ->
  NoDup (Object_keys props)
  /\ forall kv, In kv props -> well_formed (snd kv) = true.
Proof.
  simpl. rewrite andb_true_iff, distinct_NoDup, forallb_forall. tauto.
Qed.

Lemma same_keys_Permutation {V W : Type} (ps : list (string * V))
  (qs : list (string * W)) :
  NoDup (Object_keys ps) -> NoDup (Object_keys qs) ->
  (forall k, GetOwnProperty ps k = None <-> GetOwnProperty qs k = None) ->
  Permutation (Object_keys ps) (Object_keys qs).
Proof.
  intros Hps Hqs Hsame. apply NoDup_Permutation; try assumption.
  intros k. specialize (Hsame k). rewrite !GetOwnProperty_None in Hsame.
  destruct (in_dec string_dec k (Object_keys ps));
    destruct (in_dec string_dec k (Object_keys qs)); tauto.
Qed.

(** ** The failures of [fromJSData] *)

Lemma fromJSData_failure_kind (v : JSValue) (e : exn) :
  fromJSData v = Throw e ->
  exists type, In type unmapped_types /\ e = no_mapping type.
Proof.
  induction v as [| |b|n|s|f|items IH|props IH|d|z] using JSValue_nested_ind;
    simpl fromJSData; try discriminate.
  - intros [= <-]. exists "undefined". simpl. tauto.
  - intros [= <-]. exists "function". simpl. tauto.
  - unfold toArry. rewrite bind_Throw. intros [H|(ps & _ & H)]; [|discriminate].
    apply mapM_Throw_inv in H. destruct H as (x & Hin & Hx).
    rewrite Forall_forall in IH. exact (IH x Hin Hx).
  - change (keysValues fromJSData props) with (fromJSData (JSObject props)).
    rewrite fromJSData_object, bind_Throw.
    intros [H|(ss & _ & H)]; [|discriminate].
    apply mapM_Throw_inv in H. destruct H as (k & Hin & Hk).
    apply bind_Throw in Hk. destruct Hk as [Hk|(d & _ & Hk)]; [|discriminate].
    rewrite Forall_forall in IH.
    apply (IH (k, Get props k)); [|exact Hk].
    apply Get_In.
    exact (Permutation_in k (Permutation_sym (sort_Permutation _)) Hin).
  - intros [= <-]. exists "symbol". simpl. tauto.
  - intros [= <-]. exists "bigint". simpl. tauto.
Qed.

(** X1. [fromJSData] has one way to fail: the error that says there is
    no mapping for the type of a value, and the type is one of
    [undefined], [function], [symbol] and [bigint]. *)
Theorem fromJSData_only_no_mapping (v : JSValue) (e : exn) :
  fromJSData v = Throw e ->
  exists type, In type unmapped_types /\ e = no_mapping type.
Proof. apply fromJSData_failure_kind. Qed.

Lemma fromJSData_only_no_mapping_witness :
  fromJSData (JSArray [JSNull; JSObject [("f", JSSymbol "s")]])
  = Throw (no_mapping "symbol")
  /\ exists type,
      In type unmapped_types /\ no_mapping "symbol" = no_mapping type.
Proof.
  split; [reflexivity|].
  apply (fromJSData_only_no_mapping
           (JSArray [JSNull; JSObject [("f", JSSymbol "s")]])).
  reflexivity.
Defined.

Lemma fromJSData_is_ok (v : JSValue) :
  well_formed v = true -> is_ok (fromJSData v) = mappable v.
Proof.
  induction v as [| |b|n|s|f|items IH|props IH|d|z] using JSValue_nested_ind;
    try reflexivity.
  - simpl well_formed. intros Hwf. rewrite fromJSData_array.
    transitivity (is_ok (mapM fromJSData items)).
    { now destruct (mapM fromJSData items). }
    rewrite mapM_is_ok_forallb. simpl mappable.
    induction IH as [|x xs Hx _ IHxs]; simpl in *; [reflexivity|].
    apply andb_true_iff in Hwf. destruct Hwf as [Hwx Hwxs].
    now rewrite (Hx Hwx), (IHxs Hwxs).
  - intros Hwf. apply well_formed_object in Hwf. destruct Hwf as [Hnd Hwf].
    rewrite fromJSData_object.
    match goal with
    | |- is_ok (bind (mapM ?g ?l) _) = _ =>
        transitivity (is_ok (mapM g l)); [now destruct (mapM g l)|]
    end.
    rewrite mapM_is_ok_forallb.
    rewrite <- (forallb_Permutation _ _ _ (sort_Permutation (Object_keys props))).
    unfold Object_keys. rewrite forallb_map_eq. simpl mappable.
    rewrite Forall_forall in IH.
    apply forallb_eq_in.
    intros [k v] Hin. cbn [fst snd].
    rewrite (Get_NoDup props k v Hnd Hin).
    pose proof (IH (k, v) Hin (Hwf (k, v) Hin)) as Hv. cbn [snd] in Hv.
    rewrite <- Hv. now destruct (fromJSData v).
Qed.

(** X2. On a value whose objects have distinct keys, [fromJSData]
    returns exactly when the value holds no [undefined], no function,
    no symbol and no big integer, at any depth. *)
Theorem fromJSData_returns_iff_mappable (v : JSValue) :
  well_formed v = true ->
  (exists p, fromJSData v = Ok p) <-> mappable v = true.
Proof.
  intros Hwf. rewrite <- (fromJSData_is_ok v Hwf).
  destruct (fromJSData v) as [p|e]; simpl; split; try discriminate.
  - reflexivity.
  - intros _. now exists p.
  - intros (p & [=]).
Qed.

Lemma fromJSData_returns_iff_mappable_witness :
  well_formed (JSArray [JSNull; JSObject [("n", JSBigInt 10)]]) = true
  /\ ((exists p,
         fromJSData (JSArray [JSNull; JSObject [("n", JSBigInt 10)]]) = Ok p)
      <-> mappable (JSArray [JSNull; JSObject [("n", JSBigInt 10)]]) = true).
Proof.
  split; [reflexivity|].
  apply (fromJSData_returns_iff_mappable
           (JSArray [JSNull; JSObject [("n", JSBigInt 10)]])).
  reflexivity.
Defined.

(** ** The encoding does not depend on the order of keys *)

Lemma mapM_fromJSData_same (xs ys : list JSValue) :
  Forall (fun x =>
            forall w,
              same_data x w -> well_formed x = true -> well_formed w = true ->
              fromJSData x = fromJSData w) xs ->
  Forall2 same_data xs ys ->
  forallb well_formed xs = true ->
  forallb well_formed ys = true ->
  mapM fromJSData xs = mapM fromJSData ys.
Proof.
  intros IH Hall. revert IH.
  induction Hall as [|x y xs ys Hxy _ IHxs]; intros IH Hv Hw; [reflexivity|].
  simpl in Hv, Hw. apply andb_true_iff in Hv, Hw.
  destruct Hv as [Hvx Hvxs], Hw as [Hwy Hwys].
  inversion IH as [|? ? Hx Hxs]; subst. cbn [mapM].
  now rewrite (Hx y Hxy Hvx Hwy), (IHxs Hxs Hvxs Hwys).
Qed.

(** X3. Two values that are the same data, their objects differing at
    most in the order of the keys, have the same encoding: the same
    term, or the same failure. *)
Theorem fromJSData_same_data (v : JSValue) :
  forall w,
    same_data v w ->
    well_formed v = true ->
    well_formed w = true ->
    fromJSData v = fromJSData w.
Proof.
  induction v as [| |b|n|s|f|items IH|props IH|d|z] using JSValue_nested_ind;
    intros w Hsame Hv Hw; inversion Hsame; subst; try reflexivity.
  - rewrite !fromJSData_array. f_equal. simpl in Hv, Hw.
    now apply mapM_fromJSData_same.
  - apply well_formed_object in Hv, Hw.
    destruct Hv as [Hndv Hv], Hw as [Hndw Hw].
    match goal with
    | Hkeys : forall k, GetOwnProperty props k = None <-> _,
      Hvals : forall k v w, GetOwnProperty props k = Some v -> _ |- _ =>
        rename Hkeys into Hk; rename Hvals into Hvals'
    end.
    rewrite !fromJSData_object.
    rewrite <- (sort_Permutation_eq _ _
                  (same_keys_Permutation props qs Hndv Hndw Hk)).
    f_equal. apply mapM_ext. intros k Hin.
    assert (In k (Object_keys props)) as Hin'
        by exact (Permutation_in k (Permutation_sym (sort_Permutation _)) Hin).
    destruct (GetOwnProperty props k) as [x|] eqn:Ex;
      [|apply GetOwnProperty_None in Ex; tauto].
    destruct (GetOwnProperty qs k) as [y|] eqn:Ey;
      [|apply Hk in Ey; congruence].
    unfold Get. rewrite Ex, Ey.
    rewrite Forall_forall in IH.
    pose proof (GetOwnProperty_In _ _ _ Ex) as Hinx.
    pose proof (GetOwnProperty_In _ _ _ Ey) as Hiny.
    pose proof (IH (k, x) Hinx y (Hvals' k x y Ex Ey) (Hv _ Hinx) (Hw _ Hiny))
      as Hxy.
    cbn [snd] in Hxy. now rewrite Hxy.
Qed.

Lemma fromJSData_same_data_witness :
  same_data example_map
    (JSObject [("a", JSNumber (Integral 2)); ("b", JSNumber (Integral 1))])
  /\ well_formed example_map = true
  /\ well_formed
       (JSObject [("a", JSNumber (Integral 2)); ("b", JSNumber (Integral 1))])
     = true
  /\ fromJSData example_map
     = fromJSData
         (JSObject [("a", JSNumber (Integral 2)); ("b", JSNumber (Integral 1))]).
Proof.
  assert (same_data example_map
            (JSObject [("a", JSNumber (Integral 2));
                       ("b", JSNumber (Integral 1))])) as Hsame.
  { constructor.
    - intros k. cbn [GetOwnProperty].
      destruct (String.eqb "b" k), (String.eqb "a" k);
        split; intros H; try discriminate H; reflexivity.
    - intros k x y. cbn [GetOwnProperty].
      destruct (String.eqb_spec "b" k) as [<-|Hb].
      + cbn. intros [= <-] [= <-]. constructor.
      + destruct (String.eqb_spec "a" k) as [<-|Ha]; [|discriminate].
        intros [= <-] [= <-]. constructor. }
  split; [exact Hsame|]. split; [reflexivity|]. split; [reflexivity|].
  apply (fromJSData_same_data example_map _ Hsame); reflexivity.
Defined.

(** ** What [toJSData] returns *)

Lemma Forall_CreateDataProperty {V : Type} (R : string * V -> Prop)
  (obj : list (string * V)) (k : string) (v : V) :
  Forall R obj -> (forall k', R (k', v)) ->
  Forall R (CreateDataProperty obj k v).
Proof.
  intros Hobj Hv. induction Hobj as [|[k0 v0] rest H0 Hrest IH]; simpl.
  - constructor; [apply Hv | constructor].
  - destruct (String.eqb k0 k); constructor; auto.
Qed.

Lemma Forall_values_spread (R : JSValue -> Prop)
  (source target : list (string * JSValue)) :
  Forall (fun kv => R (snd kv)) target ->
  Forall (fun kv => R (snd kv)) source ->
  Forall (fun kv => R (snd kv)) (spread target source).
Proof.
  unfold spread. intros Ht Hs. revert target Ht.
  induction Hs as [|[k v] rest Hv _ IH]; simpl; intros target Ht; [exact Ht|].
  apply IH. apply Forall_CreateDataProperty; [exact Ht|]. intros k'. exact Hv.
Qed.

Lemma add_send_Ok (acc acc' : list (string * JSValue)) (c : Channel)
  (d : list Par) :
  add_send toJSData acc (mkSend c d) = Ok acc' ->
  exists q key k d0 rest v,
    c = quote q /\ toJSData q = Ok key /\ ToPropertyKey key = Ok k
    /\ d = d0 :: rest /\ toJSData d0 = Ok v
    /\ acc' = spread [(k, v)] acc.
Proof.
  unfold add_send. intros H.
  apply bind_Ok in H. destruct H as (key & Hkey & H).
  apply bind_Ok in H. destruct H as (k & Hk & H).
  apply bind_Ok in H. destruct H as (v & Hv & [= <-]).
  destruct c as [q|]; [|discriminate]. destruct d as [|d0 rest]; [discriminate|].
  now exists q, key, k, d0, rest, v.
Qed.

Lemma reduceM_add_send_values (R : JSValue -> Prop) (ss : list Send) :
  Forall (fun s => Forall (fun d => forall w, toJSData d = Ok w -> R w) (data s))
    ss ->
  forall acc o,
    reduceM (add_send toJSData) ss acc = Ok o ->
    NoDup (Object_keys acc) ->
    Forall (fun kv => R (snd kv)) acc ->
    NoDup (Object_keys o) /\ Forall (fun kv => R (snd kv)) o.
Proof.
  induction 1 as [|[c d] ss Hs _ IH]; intros acc o; simpl.
  - intros [= <-]. tauto.
  - intros H Hnd Hacc. apply bind_Ok in H. destruct H as (acc' & Hacc' & Ho).
    apply add_send_Ok in Hacc'.
    destruct Hacc' as (q & key & k & d0 & rest & v & -> & _ & _ & -> & Hv & ->).
    apply (IH _ _ Ho).
    + apply NoDup_keys_spread. repeat constructor. simpl. tauto.
    + apply Forall_values_spread; [|exact Hacc].
      constructor; [|constructor]. simpl in *.
      inversion Hs as [|? ? Hd0 _]; subst. exact (Hd0 v Hv).
Qed.

Lemma toJSData_sends_output (l : list Send) (o : list (string * JSValue)) :
  Forall (Send_Forall
            (fun p => forall w,
                 toJSData p = Ok w ->
                 mappable w = true /\ well_formed w = true)) l ->
  reduceM (add_send toJSData) l [] = Ok o ->
  mappable (JSObject o) = true /\ well_formed (JSObject o) = true.
Proof.
  intros Hss Ho.
  destruct (reduceM_add_send_values
              (fun w => mappable w = true /\ well_formed w = true) l)
    with (acc := @nil (string * JSValue)) (o := o) as [Hnd Hall].
  - eapply Forall_impl; [|exact Hss]. intros s [_ Hd]. exact Hd.
  - exact Ho.
  - constructor.
  - constructor.
  - rewrite Forall_forall in Hall. simpl.
    rewrite (proj2 (distinct_NoDup _) Hnd). simpl.
    split; apply forallb_forall; intros kv Hin; apply (Hall kv Hin).
Qed.

Lemma toJSData_output (p : Par) :
  forall w, toJSData p = Ok w -> mappable w = true /\ well_formed w = true.
Proof.
  induction p as [es ss os Hes Hss] using Par_nested_ind. intros w.
  destruct es as [[|ex [|ex' rest]]|]; simpl.
  - destruct ss as [l|]; [|intros [= <-]; split; reflexivity].
    intros H. apply bind_Ok in H. destruct H as (o & Ho & [= <-]).
    exact (toJSData_sends_output l o Hss Ho).
  - destruct ex as [b|n|s|ps|tag]; try (intros [= <-]; split; reflexivity).
    simpl in Hes. inversion Hes as [|? ? Hps _]; subst. simpl in Hps.
    intros H. apply bind_Ok in H. destruct H as (items & Hitems & [= <-]).
    apply mapM_Forall2 in Hitems. simpl. clear Hes Hss.
    induction Hitems as [|q x qs xs Hq _ IH]; [split; reflexivity|].
    inversion Hps as [|? ? Hq' Hqs']; subst.
    destruct (Hq' x Hq) as [Hm Hw]. destruct (IH Hqs') as [Hms Hws].
    simpl. now rewrite Hm, Hw, Hms, Hws.
  - discriminate.
  - destruct ss as [l|]; [|intros [= <-]; split; reflexivity].
    intros H. apply bind_Ok in H. destruct H as (o & Ho & [= <-]).
    exact (toJSData_sends_output l o Hss Ho).
Qed.

(** X4. What [toJSData] returns can be given back to [fromJSData]: it
    holds no [undefined] and no function, its objects have distinct
    keys, and [fromJSData] returns on it. *)
Theorem toJSData_reencodable (p : Par) (w : JSValue) :
  toJSData p = Ok w ->
  mappable w = true /\ well_formed w = true /\ is_ok (fromJSData w) = true.
Proof.
  intros H. destruct (toJSData_output p w H) as [Hm Hw].
  repeat split; try assumption. now rewrite (fromJSData_is_ok w Hw).
Qed.

Lemma toJSData_reencodable_witness :
  toJSData duplicate_key_term = Ok (JSObject [("a", JSNumber (Integral 1))])
  /\ mappable (JSObject [("a", JSNumber (Integral 1))]) = true
  /\ well_formed (JSObject [("a", JSNumber (Integral 1))]) = true
  /\ is_ok (fromJSData (JSObject [("a", JSNumber (Integral 1))])) = true.
Proof.
  split; [reflexivity|].
  apply (toJSData_reencodable duplicate_key_term). reflexivity.
Defined.

(** ** The failures of [toJSData] and [toRholang] *)

Lemma reduceM_Throw_inv {A B : Type} (f : B -> A -> result B) (l : list A)
  (e : exn) :
  forall acc,
    reduceM f l acc = Throw e ->
    exists x acc', In x l /\ f acc' x = Throw e.
Proof.
  induction l as [|x xs IH]; intros acc; simpl; [discriminate|].
  rewrite bind_Throw. intros [H|(acc' & _ & H)].
  - exists x, acc. tauto.
  - destruct (IH _ H) as (x' & acc'' & Hin & Hx'). exists x', acc''. tauto.
Qed.

Lemma ToString_only_TypeError (v : JSValue) (e : exn) :
  ToString v = Throw e -> e = TypeError.
Proof.
  induction v as [| |b|n|s|f|items IH|props IH|d|z] using JSValue_nested_ind;
    simpl; try discriminate.
  - rewrite bind_Throw. intros [H|(parts & _ & H)]; [|discriminate].
    apply mapM_Throw_inv in H. destruct H as (x & Hin & Hx).
    rewrite Forall_forall in IH. specialize (IH x Hin).
    destruct x; try discriminate; auto.
  - destruct (GetOwnProperty props "toString"); [|discriminate].
    now intros [= <-].
  - now intros [= <-].
Qed.

Lemma on_quote_failures {A : Type} (recur : Par -> result A) (c : Channel) :
  Channel_Forall (fun p => only_malformed_or_TypeError (recur p)) c ->
  only_malformed_or_TypeError (on_quote recur c).
Proof.
  destruct c as [q|]; simpl; intros H e.
  - apply H.
  - intros [= <-]. now right.
Qed.

Lemma toJSData_failures (p : Par) : only_malformed_or_TypeError (toJSData p).
Proof.
  induction p as [es ss os Hes Hss] using Par_nested_ind. intros e.
  assert (forall l,
             Forall (Send_Forall
                       (fun p => only_malformed_or_TypeError (toJSData p))) l ->
             (obj <- reduceM (add_send toJSData) l [] ;; Ok (JSObject obj))
             = Throw e ->
             MalformedTerm e \/ e = TypeError) as Hsends.
  { intros l Hl H. apply bind_Throw in H.
    destruct H as [H|(o & _ & H)]; [|discriminate].
    apply reduceM_Throw_inv in H. destruct H as ([c d] & acc & Hin & H).
    rewrite Forall_forall in Hl. destruct (Hl _ Hin) as [Hc Hd]. simpl in Hc, Hd.
    unfold add_send in H. apply bind_Throw in H.
    destruct H as [H|(key & _ & H)]; [exact (on_quote_failures _ c Hc e H)|].
    apply bind_Throw in H. destruct H as [H|(k & _ & H)].
    { right. exact (ToString_only_TypeError key e H). }
    apply bind_Throw in H. destruct H as [H|(v & _ & H)]; [|discriminate].
    destruct d as [|d0 rest]; simpl in H.
    - injection H as <-. now right.
    - inversion Hd as [|? ? Hd0 _]; subst. exact (Hd0 e H). }
  destruct es as [[|ex [|ex' rest]]|]; simpl.
  - destruct ss as [l|]; [exact (Hsends l Hss) | discriminate].
  - destruct ex as [b|n|s|ps|tag]; try discriminate.
    + simpl in Hes. inversion Hes as [|? ? Hps _]; subst. simpl in Hps.
      rewrite bind_Throw. intros [H|(items & _ & H)]; [|discriminate].
      apply mapM_Throw_inv in H. destruct H as (q & Hin & Hq).
      rewrite Forall_forall in Hps. exact (Hps q Hin e Hq).
    + intros [= <-]. left. now left.
  - intros [= <-]. left. right. now eexists.
  - destruct ss as [l|]; [exact (Hsends l Hss) | discriminate].
Qed.

Lemma toRholang_failures (p : Par) : only_malformed_or_TypeError (toRholang p).
Proof.
  induction p as [es ss os Hes Hss] using Par_nested_ind. intros e.
  assert (forall l,
             Forall (Send_Forall
                       (fun p => only_malformed_or_TypeError (toRholang p))) l ->
             (procs <- mapM (ea toRholang) l ;; Ok (join " | " procs))
             = Throw e ->
             MalformedTerm e \/ e = TypeError) as Hsends.
  { intros l Hl H. apply bind_Throw in H.
    destruct H as [H|(o & _ & H)]; [|discriminate].
    apply mapM_Throw_inv in H. destruct H as ([c d] & Hin & H).
    rewrite Forall_forall in Hl. destruct (Hl _ Hin) as [Hc Hd]. simpl in Hc, Hd.
    unfold ea in H. apply bind_Throw in H.
    destruct H as [H|(name & _ & H)]; [exact (on_quote_failures _ c Hc e H)|].
    apply bind_Throw in H. destruct H as [H|(args & _ & H)]; [|discriminate].
    apply mapM_Throw_inv in H. destruct H as (q & Hinq & Hq).
    rewrite Forall_forall in Hd. exact (Hd q Hinq e Hq). }
  destruct es as [[|ex [|ex' rest]]|]; simpl.
  - destruct ss as [l|]; [exact (Hsends l Hss) | discriminate].
  - destruct ex as [b|n|s|ps|tag]; try discriminate.
    + simpl in Hes. inversion Hes as [|? ? Hps _]; subst. simpl in Hps.
      rewrite bind_Throw. intros [H|(items & _ & H)]; [|discriminate].
      apply mapM_Throw_inv in H. destruct H as (q & Hin & Hq).
      rewrite Forall_forall in Hps. exact (Hps q Hin e Hq).
    + intros [= <-]. left. now left.
  - intros [= <-]. left. right. now eexists.
  - destruct ss as [l|]; [exact (Hsends l Hss) | discriminate].
Qed.

(** X5. When [toJSData] or [toRholang] fails on a term, at whatever
    depth, the error is one of the two that say the node is not
    RHOCore, or the [TypeError] of reading from what is not there. *)
Theorem decode_print_only_failures (p : Par) (e : exn) :
  toJSData p = Throw e \/ toRholang p = Throw e ->
  MalformedTerm e \/ e = TypeError.
Proof.
  intros [H|H]; [exact (toJSData_failures p e H) | exact (toRholang_failures p e H)].
Qed.

Lemma decode_print_only_failures_witness :
  (toJSData (expr1 (e_list_body [empty_payload_term])) = Throw TypeError
   \/ toRholang (expr1 (e_list_body [empty_payload_term])) = Throw TypeError)
  /\ (MalformedTerm TypeError \/ TypeError = TypeError).
Proof.
  split; [left; reflexivity|].
  apply (decode_print_only_failures (expr1 (e_list_body [empty_payload_term]))).
  left. reflexivity.
Defined.

(** ** Encoding again what was decoded *)

Lemma sort_sort (keys : list string) : sort (sort keys) = sort keys.
Proof. apply sort_Permutation_eq, Permutation_sym, sort_Permutation. Qed.

Lemma reencode_items (items : list JSValue) :
  Forall (fun x =>
            forall p,
              well_formed x = true -> fromJSData x = Ok p ->
              exists w, toJSData p = Ok w /\ fromJSData w = Ok p) items ->
  forallb well_formed items = true ->
  forall ps,
    mapM fromJSData items = Ok ps ->
    exists ws, mapM toJSData ps = Ok ws /\ mapM fromJSData ws = Ok ps.
Proof.
  induction 1 as [|x xs Hx _ IH]; simpl; intros Hwf ps Hps.
  - injection Hps as <-. now exists [].
  - apply andb_true_iff in Hwf. destruct Hwf as [Hwx Hwxs].
    apply bind_Ok in Hps. destruct Hps as (q & Hq & Hps).
    apply bind_Ok in Hps. destruct Hps as (qs & Hqs & [= <-]).
    destruct (Hx q Hwx Hq) as (w & Hw & Hw').
    destruct (IH Hwxs qs Hqs) as (ws & Hws & Hws').
    exists (w :: ws). simpl. now rewrite Hw, Hws, Hw', Hws'.
Qed.

Lemma reencode_entries (props : list (string * JSValue)) :
  Forall (fun kv =>
            forall p,
              well_formed (snd kv) = true -> fromJSData (snd kv) = Ok p ->
              exists w, toJSData p = Ok w /\ fromJSData w = Ok p) props ->
  (forall kv, In kv props -> well_formed (snd kv) = true) ->
  forall keys ss,
    incl keys (Object_keys props) ->
    mapM (fun k =>
            d <- fromJSData (Get props k) ;;
            Ok (mkSend (quote (expr1 (g_string k))) [d])) keys = Ok ss ->
    exists kvs,
      mapM send_entry ss = Ok kvs
      /\ Object_keys kvs = keys
      /\ Forall2 (fun kv s =>
                    exists d, s = mkSend (quote (expr1 (g_string (fst kv)))) [d]
                              /\ fromJSData (snd kv) = Ok d) kvs ss.
Proof.
  intros IH Hwf. rewrite Forall_forall in IH.
  induction keys as [|k keys IHkeys]; intros ss Hincl Hss; simpl in Hss.
  - injection Hss as <-. exists []. repeat split. constructor.
  - apply bind_Ok in Hss. destruct Hss as (s & Hs & Hss).
    apply bind_Ok in Hss. destruct Hss as (ss' & Hss' & [= <-]).
    apply bind_Ok in Hs. destruct Hs as (d & Hd & [= <-]).
    destruct (IHkeys ss') as (kvs & Hkvs & Hkeys & Hall); [|exact Hss'|].
    { intros x Hx. apply Hincl. now right. }
    assert (In (k, Get props k) props) as Hin.
    { apply Get_In, Hincl. now left. }
    destruct (IH _ Hin d (Hwf _ Hin) Hd) as (w & Hw & Hw').
    exists ((k, w) :: kvs). simpl. rewrite Hw, Hkvs. simpl. rewrite Hkeys.
    repeat split. constructor; [|exact Hall]. now exists d.
Qed.

Lemma reencode_sends (o kvs : list (string * JSValue)) :
  NoDup (Object_keys kvs) ->
  (forall k, GetOwnProperty o k = GetOwnProperty kvs k) ->
  forall kvs' ss,
    incl kvs' kvs ->
    Forall2 (fun kv s =>
               exists d, s = mkSend (quote (expr1 (g_string (fst kv)))) [d]
                         /\ fromJSData (snd kv) = Ok d) kvs' ss ->
    mapM (fun k =>
            d <- fromJSData (Get o k) ;;
            Ok (mkSend (quote (expr1 (g_string k))) [d])) (Object_keys kvs')
    = Ok ss.
Proof.
  intros Hnd Hget kvs' ss Hincl Hall.
  induction Hall as [|[k w] s kvs' ss (d & -> & Hd) _ IH]; [reflexivity|].
  simpl in *. unfold Get at 1.
  rewrite Hget, (GetOwnProperty_NoDup kvs k w Hnd (Hincl _ (or_introl eq_refl))).
  rewrite Hd. simpl. rewrite IH; [reflexivity|].
  intros x Hx. apply Hincl. now right.
Qed.

(** X6. Decoding a term that [fromJSData] produced, from a value whose
    objects have distinct keys, and encoding the result again gives the
    same term back. *)
Theorem fromJSData_toJSData_fromJSData (v : JSValue) :
  forall p,
    well_formed v = true ->
    fromJSData v = Ok p ->
    exists w, toJSData p = Ok w /\ fromJSData w = Ok p.
Proof.
  induction v as [| |b|n|s|f|items IH|props IH|d|z] using JSValue_nested_ind;
    intros p Hwf Hp; simpl in Hp; try discriminate.
  - injection Hp as <-. now exists JSNull.
  - injection Hp as <-. now exists (JSBool b).
  - injection Hp as <-. now exists (JSNumber n).
  - injection Hp as <-. now exists (JSString s).
  - unfold toArry in Hp. apply bind_Ok in Hp.
    destruct Hp as (ps & Hps & [= <-]).
    destruct (reencode_items items IH Hwf ps Hps) as (ws & Hws & Hws').
    exists (JSArray ws). simpl. rewrite Hws. split; [reflexivity|].
    unfold toArry. now rewrite Hws'.
  - change (keysValues fromJSData props) with (fromJSData (JSObject props)) in Hp.
    rewrite fromJSData_object in Hp. apply bind_Ok in Hp.
    destruct Hp as (ss & Hss & [= <-]).
    apply well_formed_object in Hwf. destruct Hwf as [Hnd Hwf].
    pose proof (sort_Permutation (Object_keys props)) as Hperm.
    destruct (reencode_entries props IH Hwf (sort (Object_keys props)) ss)
      as (kvs & Hkvs & Hkeys & Hall); [|exact Hss|].
    { intros x Hx. exact (Permutation_in x (Permutation_sym Hperm) Hx). }
    destruct (reduceM_add_send ss kvs [] Hkvs) as (o & Ho & Hndo & Hget);
      [constructor|]. simpl in Hget.
    assert (NoDup (Object_keys kvs)) as Hndk.
    { rewrite Hkeys. exact (Permutation_NoDup Hperm Hnd). }
    exists (JSObject o). simpl. rewrite Ho. split; [reflexivity|].
    change (keysValues fromJSData o) with (fromJSData (JSObject o)).
    rewrite fromJSData_object.
    assert (sort (Object_keys o) = Object_keys kvs) as ->.
    { rewrite (sort_Permutation_eq _ (Object_keys kvs)).
      - rewrite Hkeys. apply sort_sort.
      - apply same_keys_Permutation; try assumption.
        intros k. now rewrite Hget. }
    rewrite (reencode_sends o kvs Hndk Hget kvs ss (incl_refl _) Hall).
    reflexivity.
Qed.

Lemma fromJSData_toJSData_fromJSData_witness :
  well_formed example_map = true
  /\ fromJSData example_map
     = Ok (mkPar None
             (Some [mkSend (quote (expr1 (g_string "a")))
                      [expr1 (g_int (Integral 2))];
                    mkSend (quote (expr1 (g_string "b")))
                      [expr1 (g_int (Integral 1))]])
             [])
  /\ exists w,
      toJSData
        (mkPar None
           (Some [mkSend (quote (expr1 (g_string "a")))
                    [expr1 (g_int (Integral 2))];
                  mkSend (quote (expr1 (g_string "b")))
                    [expr1 (g_int (Integral 1))]])
           [])
      = Ok w
      /\ fromJSData w
         = Ok (mkPar None
                 (Some [mkSend (quote (expr1 (g_string "a")))
                          [expr1 (g_int (Integral 2))];
                        mkSend (quote (expr1 (g_string "b")))
                          [expr1 (g_int (Integral 1))]])
                 []).
Proof.
  split; [reflexivity|]. split; [reflexivity|].
  apply (fromJSData_toJSData_fromJSData example_map); reflexivity.
Defined.

(** ** Every term of the encoder is decoded and printed *)

Lemma decode_print_items (items : list JSValue) :
  Forall (fun x =>
            forall p,
              fromJSData x = Ok p ->
              exists w text,
                toJSData p = Ok w /\ same_data x w /\ toRholang p = Ok text)
    items ->
  forall ps,
    mapM fromJSData items = Ok ps ->
    exists ws texts,
      mapM toJSData ps = Ok ws /\ Forall2 same_data items ws
      /\ mapM toRholang ps = Ok texts.
Proof.
  induction 1 as [|x xs Hx _ IH]; simpl; intros ps Hps.
  - injection Hps as <-. exists [], []. repeat split. constructor.
  - apply bind_Ok in Hps. destruct Hps as (q & Hq & Hps).
    apply bind_Ok in Hps. destruct Hps as (qs & Hqs & [= <-]).
    destruct (Hx q Hq) as (w & text & Hw & Hsame & Htext).
    destruct (IH qs Hqs) as (ws & texts & Hws & Hall & Htexts).
    exists (w :: ws), (text :: texts). simpl.
    rewrite Hw, Hws, Htext, Htexts. repeat split. now constructor.
Qed.

Lemma decode_print_entries (props : list (string * JSValue)) :
  Forall (fun kv =>
            forall p,
              fromJSData (snd kv) = Ok p ->
              exists w text,
                toJSData p = Ok w /\ same_data (snd kv) w
                /\ toRholang p = Ok text) props ->
  forall keys ss,
    incl keys (Object_keys props) ->
    mapM (fun k =>
            d <- fromJSData (Get props k) ;;
            Ok (mkSend (quote (expr1 (g_string k))) [d])) keys = Ok ss ->
    exists kvs procs,
      mapM send_entry ss = Ok kvs
      /\ Object_keys kvs = keys
      /\ Forall (fun kv => same_data (Get props (fst kv)) (snd kv)) kvs
      /\ mapM (ea toRholang) ss = Ok procs.
Proof.
  intros IH. rewrite Forall_forall in IH.
  induction keys as [|k keys IHkeys]; intros ss Hincl Hss; simpl in Hss.
  - injection Hss as <-. exists [], []. repeat split. constructor.
  - apply bind_Ok in Hss. destruct Hss as (s & Hs & Hss).
    apply bind_Ok in Hss. destruct Hss as (ss' & Hss' & [= <-]).
    apply bind_Ok in Hs. destruct Hs as (d & Hd & [= <-]).
    destruct (IHkeys ss') as (kvs & procs & Hkvs & Hkeys & Hall & Hprocs);
      [|exact Hss'|].
    { intros x Hx. apply Hincl. now right. }
    assert (In (k, Get props k) props) as Hin.
    { apply Get_In, Hincl. now left. }
    destruct (IH _ Hin d Hd) as (w & text & Hw & Hsame & Htext).
    simpl in Hsame.
    exists ((k, w) :: kvs),
      (("@" ++ QuoteJSONString k ++ "!(" ++ text ++ ")") :: procs).
    cbn [mapM send_entry ea on_quote on_data0 toJSData toRholang expr1].
    cbn [bind ToPropertyKey ToString]. rewrite Hw. cbn [bind].
    rewrite Hkvs. cbn [bind]. rewrite Htext. cbn [bind join].
    rewrite Hprocs. cbn [bind Object_keys map fst]. unfold Object_keys in Hkeys.
    rewrite Hkeys. repeat split. now constructor.
Qed.

Lemma encoder_term_decodes_prints (v : JSValue) :
  forall p,
    fromJSData v = Ok p ->
    exists w text,
      toJSData p = Ok w /\ same_data v w /\ toRholang p = Ok text.
Proof.
  induction v as [| |b|n|s|f|items IH|props IH|d|z] using JSValue_nested_ind;
    intros p Hp; simpl in Hp; try discriminate.
  - injection Hp as <-. exists JSNull, "Nil". repeat split. constructor.
  - injection Hp as <-. exists (JSBool b), (JSON_stringify_bool b).
    repeat split. constructor.
  - injection Hp as <-. exists (JSNumber n), (JSON_stringify_number n).
    repeat split. constructor.
  - injection Hp as <-. exists (JSString s), (QuoteJSONString s).
    repeat split. constructor.
  - unfold toArry in Hp. apply bind_Ok in Hp.
    destruct Hp as (ps & Hps & [= <-]).
    destruct (decode_print_items items IH ps Hps)
      as (ws & texts & Hws & Hall & Htexts).
    exists (JSArray ws), ("[" ++ join ", " texts ++ "]").
    simpl. rewrite Hws, Htexts. repeat split. now constructor.
  - change (keysValues fromJSData props) with (fromJSData (JSObject props)) in Hp.
    rewrite fromJSData_object in Hp. apply bind_Ok in Hp.
    destruct Hp as (ss & Hss & [= <-]).
    pose proof (sort_Permutation (Object_keys props)) as Hperm.
    destruct (decode_print_entries props IH (sort (Object_keys props)) ss)
      as (kvs & procs & Hkvs & Hkeys & Hall & Hprocs); [|exact Hss|].
    { intros x Hx. exact (Permutation_in x (Permutation_sym Hperm) Hx). }
    destruct (reduceM_add_send ss kvs [] Hkvs) as (o & Ho & _ & Hget);
      [constructor|]. simpl in Hget.
    exists (JSObject o), (join " | " procs).
    simpl. rewrite Ho, Hprocs. repeat split. constructor.
    + intros k. rewrite Hget, !GetOwnProperty_None, Hkeys. split; intros H Hin.
      * apply H. exact (Permutation_in k (Permutation_sym Hperm) Hin).
      * apply H. exact (Permutation_in k Hperm Hin).
    + intros k x w Hx Hw. rewrite Hget in Hw.
      apply GetOwnProperty_In in Hw. rewrite Forall_forall in Hall.
      specialize (Hall _ Hw). simpl in Hall. unfold Get in Hall.
      now rewrite Hx in Hall.
Qed.



(** ** Literals print apart *)

Lemma unescape1_escape (c : ascii) (rest : string) :
  unescape1 (escape c ++ rest) = Some (c, rest).
Proof. destruct c as [[] [] [] [] [] [] [] []]; reflexivity. Qed.

Lemma escape_all_inj (s : string) :
  forall s', escape_all s = escape_all s' -> s = s'.
Proof.
  induction s as [|c r IH]; intros [|c' r']; simpl; intros H.
  - reflexivity.
  - apply (f_equal unescape1) in H.
    rewrite unescape1_escape in H. discriminate H.
  - apply (f_equal unescape1) in H.
    rewrite unescape1_escape in H. discriminate H.
  - apply (f_equal unescape1) in H.
    rewrite !unescape1_escape in H. injection H as -> H.
    f_equal. now apply IH.
Qed.

Lemma append_length (s t : string) :
  String.length (s ++ t) = String.length s + String.length t.
Proof. induction s as [|c s IH]; simpl; [reflexivity | now rewrite IH]. Qed.

Lemma append_inv_tail (t : string) (s : string) :
  forall s', s ++ t = s' ++ t -> s = s'.
Proof.
  induction s as [|c s IH]; intros [|c' s'] H; simpl in H.
  - reflexivity.
  - apply (f_equal String.length) in H. simpl in H.
    rewrite append_length in H. lia.
  - apply (f_equal String.length) in H. simpl in H.
    rewrite append_length in H. lia.
  - injection H as -> H. f_equal. now apply IH.
Qed.

Lemma QuoteJSONString_inj (s s' : string) :
  QuoteJSONString s = QuoteJSONString s' -> s = s'.
Proof.
  unfold QuoteJSONString. simpl. intros [= H].
  apply escape_all_inj. exact (append_inv_tail _ _ _ H).
Qed.

Lemma decimal_inj (i i' : Z) : decimal i = decimal i' -> i = i'.
Proof.
  assert (forall z, NilZero.int_of_string (decimal z) = Some (Z.to_int z)) as H.
  { intros z. unfold decimal. apply NilZero.isi.
    - destruct z; simpl; try discriminate.
      intros [= E]. exact (Unsigned.to_uint_nonnil _ E).
    - destruct z; simpl; try discriminate.
      intros [= E]. exact (Unsigned.to_uint_nonnil _ E). }
  intros E. apply (f_equal NilZero.int_of_string) in E. rewrite !H in E.
  injection E as E. apply (f_equal Z.of_int) in E.
  now rewrite !DecimalZ.of_to in E.
Qed.

Lemma decimal_head (i : Z) :
  exists c rest,
    decimal i = String c rest
    /\ (c = "-"%char \/ (48 <= N_of_ascii c <= 57)%N).
Proof.
  unfold decimal.
  destruct (Z.to_int i) as [d|d]; simpl.
  - destruct d; simpl; eexists; eexists; (split; [reflexivity|]);
      right; simpl; lia.
  - eexists; eexists. split; [reflexivity|]. now left.
Qed.

Lemma toRholang_literal (l : Literal) :
  safe_literal l = true ->
  toRholang (node (Lit l))
  = Ok (match l with
        | Bool b => if b then "true" else "false"
        | Int i => decimal i
        | Str s => QuoteJSONString s
        end).
Proof.
  destruct l as [b|i|s]; intros Hsafe.
  - now destruct b.
  - cbn [node toRholang expr1]. now rewrite (JSON_stringify_number_safe i Hsafe).
  - reflexivity.
Qed.

(** X8. [toRholang] prints different literals differently: two literal
    nodes (a boolean, an integer of at most [2^53] in magnitude, or a
    string each) with the same text are the same literal. *)
Theorem toRholang_literals_apart (l l' : Literal) :
  safe_literal l = true ->
  safe_literal l' = true ->
  toRholang (node (Lit l)) = toRholang (node (Lit l')) ->
  l = l'.
Proof.
  intros Hl Hl'. rewrite (toRholang_literal l Hl), (toRholang_literal l' Hl').
  clear Hl Hl'. intros [= H].
  destruct l as [b|i|s], l' as [b'|i'|s'].
  - destruct b, b'; try reflexivity; discriminate H.
  - destruct (decimal_head i') as (c & rest & E & Hc). rewrite E in H.
    destruct b; injection H as <- _; destruct Hc as [Hc|Hc];
      try discriminate Hc; simpl in Hc; lia.
  - destruct b; discriminate H.
  - destruct (decimal_head i) as (c & rest & E & Hc). rewrite E in H.
    destruct b'; injection H as -> _; destruct Hc as [Hc|Hc];
      try discriminate Hc; simpl in Hc; lia.
  - f_equal. now apply decimal_inj.
  - destruct (decimal_head i) as (c & rest & E & Hc). rewrite E in H.
    unfold QuoteJSONString in H. simpl in H. injection H as -> _.
    destruct Hc as [Hc|Hc]; [discriminate Hc | simpl in Hc; lia].
  - destruct b'; discriminate H.
  - destruct (decimal_head i') as (c & rest & E & Hc). rewrite E in H.
    unfold QuoteJSONString in H. simpl in H. injection H as <- _.
    destruct Hc as [Hc|Hc]; [discriminate Hc | simpl in Hc; lia].
  - f_equal. now apply QuoteJSONString_inj.
Qed.

Lemma toRholang_literals_apart_witness :
  safe_literal (Int 12) = true
  /\ safe_literal (Int 12) = true
  /\ toRholang (node (Lit (Int 12))) = toRholang (node (Lit (Int 12)))
  /\ Int 12 = Int 12.
Proof.
  split; [reflexivity|]. split; [reflexivity|]. split; [reflexivity|].
  apply (toRholang_literals_apart (Int 12) (Int 12)); reflexivity.
Defined.

(** Beyond [2^53] two integers that have the same double print alike. *)
Lemma toRholang_large_integers_alike :
  toRholang (node (Lit (Int (2 ^ 53)))) = Ok "9007199254740992"
  /\ toRholang (node (Lit (Int (2 ^ 53 + 1)))) = Ok "9007199254740992".
Proof. split; vm_compute; reflexivity. Qed.

(** ** Different data, different terms *)

Lemma Forall2_sym_on {A : Type} (R : A -> A -> Prop) (xs ys : list A) :
  Forall (fun x => forall y, R x y -> R y x) xs ->
  Forall2 R xs ys -> Forall2 R ys xs.
Proof.
  intros IH H. induction H as [|x y xs ys Hxy _ IHxs]; [constructor|].
  inversion IH as [|? ? Hx Hxs]; subst. constructor; auto.
Qed.

Lemma Forall2_trans_on {A : Type} (R : A -> A -> Prop) (xs ys : list A) :
  Forall (fun x => forall y z, R x y -> R y z -> R x z) xs ->
  Forall2 R xs ys -> forall zs, Forall2 R ys zs -> Forall2 R xs zs.
Proof.
  intros IH H. induction H as [|x y xs ys Hxy _ IHxs]; intros zs Hyz;
    inversion Hyz; subst; constructor.
  - inversion IH; subst. eauto.
  - inversion IH; subst. eauto.
Qed.

Lemma same_data_sym (v : JSValue) : forall w, same_data v w -> same_data w v.
Proof.
  induction v as [| |b|n|s|f|items IH|props IH|d|z] using JSValue_nested_ind;
    intros w Hsame; inversion Hsame; subst; try constructor.
  - now apply Forall2_sym_on.
  - intros k. symmetry. auto.
  - intros k y x Hy Hx. rewrite Forall_forall in IH.
    apply (IH (k, x) (GetOwnProperty_In _ _ _ Hx)). eauto.
Qed.

Lemma same_data_trans (v : JSValue) :
  forall u w, same_data v u -> same_data u w -> same_data v w.
Proof.
  induction v as [| |b|n|s|f|items IH|props IH|d|z] using JSValue_nested_ind;
    intros u w Hvu Huw; inversion Hvu; subst; inversion Huw; subst;
    try constructor.
  - eapply Forall2_trans_on; eauto.
  - intros k. etransitivity; eauto.
  - intros k x z Hx Hz.
    match goal with
    | H1 : forall k, GetOwnProperty props k = None <-> GetOwnProperty ?qs k = None
      |- _ => destruct (GetOwnProperty qs k) as [y|] eqn:Ey;
              [|apply H1 in Ey; congruence]
    end.
    rewrite Forall_forall in IH.
    apply (IH (k, x) (GetOwnProperty_In _ _ _ Hx) y z); eauto.
Qed.

(** X9. Two values that [fromJSData] gives the same term are the same
    data: no two different data meet in one encoding. *)
Theorem fromJSData_injective (v w : JSValue) (p : Par) :
  fromJSData v = Ok p -> fromJSData w = Ok p -> same_data v w.
Proof.
  intros Hv Hw.
  destruct (encoder_term_decodes_prints v p Hv) as (x & _ & Hx & Hvx & _).
  destruct (encoder_term_decodes_prints w p Hw) as (y & _ & Hy & Hwy & _).
  assert (x = y) as <- by congruence.
  apply (same_data_trans v x w Hvx). now apply same_data_sym.
Qed.

Lemma fromJSData_injective_witness :
  fromJSData example_map
  = Ok (mkPar None
          (Some [mkSend (quote (expr1 (g_string "a")))
                   [expr1 (g_int (Integral 2))];
                 mkSend (quote (expr1 (g_string "b")))
                   [expr1 (g_int (Integral 1))]])
          [])
  /\ fromJSData
       (JSObject [("a", JSNumber (Integral 2)); ("b", JSNumber (Integral 1))])
     = Ok (mkPar None
             (Some [mkSend (quote (expr1 (g_string "a")))
                      [expr1 (g_int (Integral 2))];
                    mkSend (quote (expr1 (g_string "b")))
                      [expr1 (g_int (Integral 1))]])
             [])
  /\ same_data example_map
       (JSObject [("a", JSNumber (Integral 2)); ("b", JSNumber (Integral 1))]).
Proof.
  split; [reflexivity|]. split; [reflexivity|].
  apply (fromJSData_injective example_map
           (JSObject [("a", JSNumber (Integral 2)); ("b", JSNumber (Integral 1))])
           (mkPar None
              (Some [mkSend (quote (expr1 (g_string "a")))
                       [expr1 (g_int (Integral 2))];
                     mkSend (quote (expr1 (g_string "b")))
                       [expr1 (g_int (Integral 1))]])
              []));
    reflexivity.
Defined.

(** ** [send] and the calls to the node *)

Lemma run_callbacks_settled {A : Type} (calls : list (JSValue * option A))
  (p : promise (option A)) :
  p <> Pending -> run_callbacks calls p = p.
Proof.
  unfold run_callbacks. revert p.
  induction calls as [|[err res] calls IH]; intros p Hp; simpl; [reflexivity|].
  assert (callback err res p = p) as ->.
  { unfold callback. destruct p; [congruence| |]; now destruct (truthy err). }
  now apply IH.
Qed.

Lemma callback_Pending {A : Type} (err : JSValue) (res : option A) :
  callback err res Pending
  = if truthy err then Rejected (Given err) else Fulfilled res.
Proof. unfold callback. now destruct (truthy err). Qed.

Lemma send_first_call {A : Type} (c : calling A) (err : JSValue)
  (res : option A) (rest : list (JSValue * option A)) :
  during c = (err, res) :: rest
  \/ (during c = [] /\ throws c = None /\ after c = (err, res) :: rest) ->
  send c = if truthy err then Rejected (Given err) else Fulfilled res.
Proof.
  assert (forall calls,
             run_callbacks ((err, res) :: calls) Pending
             = if truthy err then Rejected (Given err) else Fulfilled res) as H.
  { intros calls. unfold run_callbacks. simpl.
    fold (run_callbacks calls (callback err res Pending)).
    rewrite callback_Pending.
    apply run_callbacks_settled. now destruct (truthy err). }
  unfold send. intros [Hd|(Hd & Ht & Ha)].
  - rewrite Hd, H.
    assert (forall p : promise (option A),
               p <> Pending ->
               match throws c with Some r => reject r p | None => p end = p) as Hr.
    { intros p Hp. destruct (throws c); [|reflexivity].
      destruct p; [congruence | reflexivity | reflexivity]. }
    rewrite Hr by now destruct (truthy err).
    apply run_callbacks_settled. now destruct (truthy err).
  - rewrite Hd, Ht, Ha. exact (H rest).
Qed.

(** X10. The promise of [send] is settled by the first call of the
    callback: with an error that is truthy it is rejected with that
    error, although [resolve(result)] is still run after
    [reject(err)]; otherwise it is fulfilled with the result.  Calls
    that follow, and an exception that follows, change nothing. *)
Theorem send_first_call_decides {A : Type} (c : calling A) (err : JSValue)
  (res : option A) (rest : list (JSValue * option A)) :
  during c = (err, res) :: rest
  \/ (during c = [] /\ throws c = None /\ after c = (err, res) :: rest) ->
  send c = if truthy err then Rejected (Given err) else Fulfilled res.
Proof. apply send_first_call. Qed.

Lemma send_first_call_decides_witness :
  during (mkCalling [(JSString "UNAVAILABLE", Some 1); (JSNull, Some 2)]
            (Some (Thrown TypeError)) [(JSNull, Some 3)])
  = [(JSString "UNAVAILABLE", Some 1); (JSNull, Some 2)]
  /\ send (mkCalling [(JSString "UNAVAILABLE", Some 1); (JSNull, Some 2)]
             (Some (Thrown TypeError)) [(JSNull, Some 3)])
     = Rejected (Given (JSString "UNAVAILABLE")).
Proof.
  split; [reflexivity|].
  apply (send_first_call_decides
           (mkCalling [(JSString "UNAVAILABLE", Some 1); (JSNull, Some 2)]
              (Some (Thrown TypeError)) [(JSNull, Some 3)])
           (JSString "UNAVAILABLE") (Some 1) [(JSNull, Some 2)]).
  left. reflexivity.
Defined.

Lemma deployResponse_send (c : calling DeployServiceResponse) (err : JSValue)
  (res : option DeployServiceResponse) :
  first_call c err res ->
  deployResponse (send c)
  = if truthy err then Rejected (Given err)
    else match res with
         | None => Rejected (Thrown TypeError)
         | Some r =>
             if success r then Fulfilled (message r)
             else Rejected (Thrown (Error (message r)))
         end.
Proof.
  intros (rest & Hd). rewrite (send_first_call c err res rest Hd).
  unfold deployResponse. destruct (truthy err); [reflexivity|].
  destruct res as [r|]; [|reflexivity]. simpl. now destruct (success r).
Qed.

(** X11. [doDeploy], [createBlock] and [addBlock] turn the first call
    that the node's client makes to the callback, before or after the
    request returns, into the outcome of their promise: an error is
    passed on as the rejection, with or without a reply beside it; a
    reply without success is rejected with an [Error] that carries the
    message of the reply; a reply with success fulfils the promise with
    the message; and no error with no reply is rejected with the
    [TypeError] of reading [success] of [undefined]. *)
Theorem deploy_calls_outcome (DeployData Block : Type)
  (client_DoDeploy : DeployData -> calling DeployServiceResponse)
  (client_createBlock : calling DeployServiceResponse)
  (client_addBlock : Block -> calling DeployServiceResponse)
  (deployData : DeployData) (block : Block) (err : JSValue)
  (res : option DeployServiceResponse) :
  let outcome :=
    if truthy err then Rejected (Given err)
    else match res with
         | None => Rejected (Thrown TypeError)
         | Some r =>
             if success r then Fulfilled (message r)
             else Rejected (Thrown (Error (message r)))
         end in
  (first_call (client_DoDeploy deployData) err res ->
   doDeploy DeployData client_DoDeploy deployData = outcome)
  /\ (first_call client_createBlock err res ->
      createBlock client_createBlock = outcome)
  /\ (first_call (client_addBlock block) err res ->
      addBlock Block client_addBlock block = outcome).
Proof.
  cbv zeta. unfold doDeploy, createBlock, addBlock.
  repeat split; apply deployResponse_send.
Qed.

Lemma deploy_calls_outcome_witness :
  first_call
    (mkCalling [] None
       [(JSNull, Some (mkDeployServiceResponse false "Error: parse"))])
    JSNull (Some (mkDeployServiceResponse false "Error: parse"))
  /\ doDeploy unit
       (fun _ =>
          mkCalling [] None
            [(JSNull, Some (mkDeployServiceResponse false "Error: parse"))])
       tt
     = Rejected (Thrown (Error "Error: parse"))
  /\ first_call
       (mkCalling [] None [(JSString "UNAVAILABLE", @None DeployServiceResponse)])
       (JSString "UNAVAILABLE") None
  /\ createBlock
       (mkCalling [] None [(JSString "UNAVAILABLE", @None DeployServiceResponse)])
     = Rejected (Given (JSString "UNAVAILABLE")).
Proof.
  assert (first_call
            (mkCalling [] None
               [(JSNull, Some (mkDeployServiceResponse false "Error: parse"))])
            JSNull (Some (mkDeployServiceResponse false "Error: parse"))) as H1.
  { exists []. right. repeat split. }
  assert (first_call
            (mkCalling [] None
               [(JSString "UNAVAILABLE", @None DeployServiceResponse)])
            (JSString "UNAVAILABLE") None) as H2.
  { exists []. right. repeat split. }
  split; [exact H1|]. split; [|split; [exact H2|]].
  - apply (deploy_calls_outcome unit unit
             (fun _ =>
                mkCalling [] None
                  [(JSNull, Some (mkDeployServiceResponse false "Error: parse"))])
             (mkCalling [] None []) (fun _ => mkCalling [] None [])
             tt tt JSNull (Some (mkDeployServiceResponse false "Error: parse"))).
    exact H1.
  - apply (deploy_calls_outcome unit unit
             (fun _ => mkCalling [] None [])
             (mkCalling [] None
                [(JSString "UNAVAILABLE", @None DeployServiceResponse)])
             (fun _ => mkCalling [] None [])
             tt tt (JSString "UNAVAILABLE") None).
    exact H2.
Defined.

(** X12. [listenForDataAtName] throws at once, without a promise, when
    the name holds [undefined], a function, a symbol or a big integer.
    Otherwise it listens at the quote of the encoded name, and the
    first call that the client makes to the callback, before or after
    the request returns, settles the promise: an error rejects it, with
    or without a reply beside it; a status other than [Success] rejects
    it with an [Error]; [Success] fulfils it with the block results;
    and no error with no reply rejects it with a [TypeError]. *)
Theorem listenForDataAtName_outcome (DataWithBlockInfo : Type)
  (client_listenForDataAtName :
     Channel -> calling (ListeningNameDataResponse DataWithBlockInfo))
  (nameObj : JSValue) :
  well_formed nameObj = true ->
  (mappable nameObj = false ->
   exists type,
     In type unmapped_types
     /\ listenForDataAtName DataWithBlockInfo client_listenForDataAtName
          nameObj
        = Throw (no_mapping type))
  /\ (mappable nameObj = true ->
      exists p,
        fromJSData nameObj = Ok p
        /\ forall err res,
            first_call (client_listenForDataAtName (quote p)) err res ->
            listenForDataAtName DataWithBlockInfo client_listenForDataAtName
              nameObj
            = Ok (if truthy err then Rejected (Given err)
                  else match res with
                       | None => Rejected (Thrown TypeError)
                       | Some r =>
                           if String.eqb (status r) "Success"
                           then Fulfilled (blockResults r)
                           else Rejected (Thrown (Error "[object Object]"))
                       end)).
Proof.
  intros Hwf. pose proof (fromJSData_is_ok nameObj Hwf) as Hok.
  unfold listenForDataAtName.
  destruct (fromJSData nameObj) as [p|e] eqn:Hp; simpl in Hok; split;
    intros Hm; try congruence.
  - exists p. split; [reflexivity|]. intros err res (rest & Hd). simpl.
    rewrite (send_first_call _ err res rest Hd).
    destruct (truthy err); [reflexivity|].
    destruct res as [r|]; [|reflexivity]. simpl.
    now destruct (String.eqb (status r) "Success").
  - destruct (fromJSData_failure_kind nameObj e Hp) as (type & Hin & ->).
    now exists type.
Qed.

Lemma listenForDataAtName_outcome_witness :
  well_formed (JSString "aliceUpdates") = true
  /\ mappable (JSString "aliceUpdates") = true
  /\ exists p,
      fromJSData (JSString "aliceUpdates") = Ok p
      /\ listenForDataAtName nat
           (fun _ =>
              mkCalling [] None
                [(JSNull, Some (mkListeningNameDataResponse "Success" [7]))])
           (JSString "aliceUpdates")
         = Ok (Fulfilled [7]).
Proof.
  split; [reflexivity|]. split; [reflexivity|].
  destruct (listenForDataAtName_outcome nat
              (fun _ =>
                 mkCalling [] None
                   [(JSNull, Some (mkListeningNameDataResponse "Success" [7]))])
              (JSString "aliceUpdates") eq_refl) as [_ H].
  destruct (H eq_refl) as (p & Hp & Hcall).
  exists p. split; [exact Hp|].
  apply (Hcall JSNull (Some (mkListeningNameDataResponse "Success" [7]))).
  exists []. right. repeat split.
Defined.

(** ** The gateway *)

Lemma makeClients_bound (Args Client : Type) (make : Args -> result Client)
  (argss : list Args) :
  forall its w l,
    state_bound Client w = true ->
    context_clients Client w = Some l ->
    mapM make argss = Ok its ->
    exists w',
      makeClients Args Client make argss w = (Ok its, w')
      /\ clients Client w' = Ok (Some (l ++ its)%list)
      /\ made Client w' = (made Client w ++ its)%list.
Proof.
  induction argss as [|args argss IH]; intros its w l Hb Hc Hits; simpl in Hits.
  - injection Hits as <-. exists w. simpl. unfold clients.
    rewrite Hb, Hc, !app_nil_r. repeat split.
  - apply bind_Ok in Hits. destruct Hits as (it & Hit & Hits).
    apply bind_Ok in Hits. destruct Hits as (its' & Hits' & [= <-]).
    cbn [makeClients]. unfold makeClient. rewrite Hit, Hb, Hc.
    destruct (IH its'
                (mkWorld Client (Some (l ++ [it])%list) true
                   (made Client w ++ [it])%list)
                (l ++ [it])%list eq_refl eq_refl Hits')
      as (w' & Hw' & Hcl & Hmade).
    exists w'. cbn [made] in *. rewrite Hw'.
    rewrite Hcl, Hmade, <- !app_assoc. repeat split.
Qed.

(** X13. Once the gateway is bound to its state, by [init] or because
    the state it was made on already had clients, the clients made by
    a run of [makeClient] calls are added to the recorded ones in the
    order of the calls, and [clients()] returns them all. *)
Theorem makeClient_records_in_order (Args Client : Type)
  (make : Args -> result Client) (argss : list Args) (its : list Client)
  (w : world Client) (l : list Client) :
  state_bound Client w = true ->
  context_clients Client w = Some l ->
  mapM make argss = Ok its ->
  exists w',
    makeClients Args Client make argss w = (Ok its, w')
    /\ clients Client w' = Ok (Some (l ++ its)%list)
    /\ made Client w' = (made Client w ++ its)%list.
Proof. apply makeClients_bound. Qed.

Lemma makeClient_records_in_order_witness :
  state_bound nat (init nat (gateway nat None)) = true
  /\ context_clients nat (init nat (gateway nat None)) = Some []
  /\ mapM (fun n => Ok (n + 1)) [1; 2; 3] = Ok [2; 3; 4]
  /\ exists w',
      makeClients nat nat (fun n => Ok (n + 1)) [1; 2; 3]
        (init nat (gateway nat None))
      = (Ok [2; 3; 4], w')
      /\ clients nat w' = Ok (Some [2; 3; 4])
      /\ made nat w' = [2; 3; 4].
Proof.
  repeat (split; [reflexivity|]).
  apply (makeClient_records_in_order nat nat (fun n => Ok (n + 1)) [1; 2; 3]
           [2; 3; 4] (init nat (gateway nat None)) []); reflexivity.
Defined.

(** X14. A gateway made on a state without clients is unusable until
    [init]: [clients()] throws, and [makeClient] throws too, but only
    after [context.make] has made the client, which is then recorded
    nowhere. *)
Theorem makeClient_before_init (Args Client : Type)
  (make : Args -> result Client) (args : Args) (it : Client) :
  make args = Ok it ->
  clients Client (gateway Client None) = Throw TypeError
  /\ exists w',
      makeClient Args Client make args (gateway Client None)
      = (Throw TypeError, w')
      /\ made Client w' = [it]
      /\ context_clients Client w' = None
      /\ clients Client w' = Throw TypeError.
Proof.
  intros Hit. split; [reflexivity|].
  unfold makeClient. rewrite Hit. simpl. eexists. repeat split.
Qed.

Lemma makeClient_before_init_witness :
  (fun n : nat => Ok (n + 1)) 1 = Ok 2
  /\ clients nat (gateway nat None) = Throw TypeError
  /\ exists w',
      makeClient nat nat (fun n => Ok (n + 1)) 1 (gateway nat None)
      = (Throw TypeError, w')
      /\ made nat w' = [2]
      /\ context_clients nat w' = None
      /\ clients nat w' = Throw TypeError.
Proof.
  split; [reflexivity|].
  apply (makeClient_before_init nat nat (fun n => Ok (n + 1)) 1 2).
  reflexivity.
Defined.

(** ** The shape of an encoding *)

Lemma ascending_sorted (keys : list string) :
  StronglySorted key_lt keys -> ascending keys = true.
Proof.
  induction 1 as [|k keys Hs IH Hall]; [reflexivity|].
  destruct keys as [|k' rest]; [reflexivity|].
  change (ascending (k :: k' :: rest))
    with (String.ltb k k' && ascending (k' :: rest)).
  rewrite IH, andb_true_r.
  inversion Hall; subst. assumption.
Qed.

Lemma canonical_entries (props : list (string * JSValue)) :
  Forall (fun kv =>
            forall p,
              fromJSData (snd kv) = Ok p -> well_formed (snd kv) = true ->
              canonical p = true) props ->
  (forall kv, In kv props -> well_formed (snd kv) = true) ->
  forall keys ss,
    incl keys (Object_keys props) ->
    mapM (fun k =>
            d <- fromJSData (Get props k) ;;
            Ok (mkSend (quote (expr1 (g_string k))) [d])) keys = Ok ss ->
    map key_of ss = keys
    /\ forallb (fun s =>
                  match s with
                  | mkSend (quote (mkPar (Some [g_string _]) None [])) [d] =>
                      canonical d
                  | _ => false
                  end) ss = true.
Proof.
  intros IH Hwf. rewrite Forall_forall in IH.
  induction keys as [|k keys IHkeys]; intros ss Hincl Hss; simpl in Hss.
  - injection Hss as <-. split; reflexivity.
  - apply bind_Ok in Hss. destruct Hss as (s & Hs & Hss).
    apply bind_Ok in Hss. destruct Hss as (ss' & Hss' & [= <-]).
    apply bind_Ok in Hs. destruct Hs as (d & Hd & [= <-]).
    destruct (IHkeys ss') as [Hkeys Hall]; [|exact Hss'|].
    { intros x Hx. apply Hincl. now right. }
    assert (In (k, Get props k) props) as Hin.
    { apply Get_In, Hincl. now left. }
    pose proof (IH _ Hin d Hd (Hwf _ Hin)) as Hcan.
    split.
    + cbn [map]. now rewrite Hkeys.
    + cbn [forallb expr1]. now rewrite Hcan, Hall.
Qed.

Lemma fromJSData_shape (v : JSValue) :
  forall p,
    fromJSData v = Ok p -> well_formed v = true -> canonical p = true.
Proof.
  induction v as [| |b|n|s|f|items IH|props IH|d|z] using JSValue_nested_ind;
    intros p Hp Hwf; simpl in Hp; try discriminate;
    try (injection Hp as <-; reflexivity).
  - unfold toArry in Hp. apply bind_Ok in Hp.
    destruct Hp as (ps & Hps & [= <-]). cbn.
    apply mapM_Forall2 in Hps. simpl in Hwf.
    induction Hps as [|x q xs qs Hq _ IHxs]; [reflexivity|].
    simpl in Hwf. apply andb_true_iff in Hwf. destruct Hwf as [Hwx Hwxs].
    inversion IH as [|? ? Hx Hxs]; subst. cbn [forallb].
    now rewrite (Hx q Hq Hwx), (IHxs Hxs Hwxs).
  - change (keysValues fromJSData props) with (fromJSData (JSObject props)) in Hp.
    rewrite fromJSData_object in Hp. apply bind_Ok in Hp.
    destruct Hp as (ss & Hss & [= <-]).
    apply well_formed_object in Hwf. destruct Hwf as [Hnd Hwf].
    destruct (canonical_entries props IH Hwf (sort (Object_keys props)) ss)
      as [Hkeys Hall]; [|exact Hss|].
    { intros x Hx.
      exact (Permutation_in x (Permutation_sym (sort_Permutation _)) Hx). }
    cbn [canonical]. rewrite Hall, Hkeys. simpl.
    apply ascending_sorted, sort_strict, Hnd.
Qed.

(** X15. At every depth, a term that [fromJSData] returns for a value
    whose objects have distinct keys has the shape of an encoding: no
    node mixes a literal with sends or carries anything else, every
    channel is a quoted string, every payload has one term, and the
    keys of every sends node ascend strictly. *)
Theorem fromJSData_canonical (v : JSValue) (p : Par) :
  fromJSData v = Ok p -> well_formed v = true -> canonical p = true.
Proof. apply fromJSData_shape. Qed.

Lemma fromJSData_canonical_witness :
  fromJSData (JSObject [("x", JSObject [("z", JSNull); ("y", JSArray [])])])
  = Ok (mkPar None
          (Some [mkSend (quote (expr1 (g_string "x")))
                   [mkPar None
                      (Some [mkSend (quote (expr1 (g_string "y")))
                               [expr1 (e_list_body [])];
                             mkSend (quote (expr1 (g_string "z")))
                               [mkPar None None []]])
                      []]])
          [])
  /\ well_formed
       (JSObject [("x", JSObject [("z", JSNull); ("y", JSArray [])])]) = true
  /\ canonical
       (mkPar None
          (Some [mkSend (quote (expr1 (g_string "x")))
                   [mkPar None
                      (Some [mkSend (quote (expr1 (g_string "y")))
                               [expr1 (e_list_body [])];
                             mkSend (quote (expr1 (g_string "z")))
                               [mkPar None None []]])
                      []]])
          [])
     = true.
Proof.
  split; [reflexivity|]. split; [reflexivity|].
  apply (fromJSData_canonical
           (JSObject [("x", JSObject [("z", JSNull); ("y", JSArray [])])]));
    reflexivity.
Defined.
